(** * Contract & policy RAG assistant: a shallow embedding of the pipeline core

    The development follows the Python sources under [app/]:
    - [app/ingest.py]            clause tagging and the ingestion loop,
    - [app/rag_service.py]       retrieval, threshold filtering and Q&A,
    - [app/contract_analyzer.py] smart-context assembly and response coercion,
    - [app/schemas.py]           the [ContractSchema] record.

    Python [str] values are modelled by Rocq [string]s (one [ascii] per
    character, so the case and whitespace tables are the ASCII ones), Python
    [int]s by [Z], Python [float]s by the kernel's binary64 [float]s, lists by
    [list], and dicts by association lists in insertion order.  Behaviour of
    third-party libraries (the JSON parser, [str()] of nested values,
    pydantic's lax coercions, the vector store, the language model) is taken
    as a parameter wherever the repository does not fix it. *)

From Stdlib Require Import List String Ascii ZArith Lia Bool Arith PrimFloat Floats.
From Stdlib Require Import DecimalString DecimalZ Sorted.
Import ListNotations.
Open Scope string_scope.
Set Warnings "-register-all,-inexact-float,-abstract-large-number".

(* ================================================================== *)
(** * Python string primitives *)
(* ================================================================== *)

Module PyStr.

(** [sep.join(parts)] *)
Definition join (sep : string) (parts : list string) : string :=
  String.concat sep parts.

(** [c.lower()] on one ASCII character. *)
Definition lower_char (c : ascii) : ascii :=
  let n := nat_of_ascii c in
  if (65 <=? n)%nat && (n <=? 90)%nat then ascii_of_nat (n + 32) else c.

(** [s.lower()] *)
Fixpoint lower (s : string) : string :=
  match s with
  | EmptyString => EmptyString
  | String c rest => String (lower_char c) (lower rest)
  end.

(** [sub in s]: [sub] occurs in [s] as a contiguous substring. *)
Fixpoint str_in (sub s : string) : bool :=
  String.prefix sub s ||
  match s with
  | EmptyString => false
  | String _ rest => str_in sub rest
  end.

(** [s[:n]] *)
Fixpoint take (n : nat) (s : string) : string :=
  match n, s with
  | S k, String c rest => String c (take k rest)
  | _, _ => EmptyString
  end.

(** [s[n:]] *)
Fixpoint drop (n : nat) (s : string) : string :=
  match n, s with
  | S k, String _ rest => drop k rest
  | _, _ => s
  end.

(** The newline and the double quote, which a literal cannot hold. *)
Definition nl : string := String (ascii_of_nat 10) EmptyString.
Definition dq : string := String (ascii_of_nat 34) EmptyString.

(** [c.isspace()] for ASCII: TAB, LF, VT, FF, CR, FS, GS, RS, US, SPACE. *)
Definition isspace (c : ascii) : bool :=
  let n := nat_of_ascii c in
  ((9 <=? n)%nat && (n <=? 13)%nat) || ((28 <=? n)%nat && (n <=? 32)%nat).

Fixpoint lstrip (s : string) : string :=
  match s with
  | EmptyString => EmptyString
  | String c rest => if isspace c then lstrip rest else s
  end.

Fixpoint rstrip (s : string) : string :=
  match s with
  | EmptyString => EmptyString
  | String c rest =>
      match rstrip rest with
      | EmptyString => if isspace c then EmptyString else String c EmptyString
      | kept => String c kept
      end
  end.

(** [s.strip()] *)
Definition strip (s : string) : string := rstrip (lstrip s).

(** Left-to-right scan shared by [replace] and [split]: [skip] counts the
    characters of a matched occurrence that are still to be consumed. *)
Fixpoint replace_go (old new : string) (skip : nat) (s : string) : string :=
  match s with
  | EmptyString => EmptyString
  | String c rest =>
      match skip with
      | S k => replace_go old new k rest
      | O =>
          if String.prefix old s
          then new ++ replace_go old new (String.length old - 1) rest
          else String c (replace_go old new 0 rest)
      end
  end.

Fixpoint interleave (new s : string) : string :=
  match s with
  | EmptyString => new
  | String c rest => new ++ String c (interleave new rest)
  end.

(** [s.replace(old, new)]: every non-overlapping occurrence, left to right. *)
Definition replace (old new s : string) : string :=
  match old with
  | EmptyString => interleave new s
  | _ => replace_go old new 0 s
  end.

Fixpoint split_go (sep : string) (skip : nat) (cur : string) (s : string)
  : list string :=
  match s with
  | EmptyString => [cur]
  | String c rest =>
      match skip with
      | S k => split_go sep k cur rest
      | O =>
          if String.prefix sep s
          then cur :: split_go sep (String.length sep - 1) EmptyString rest
          else split_go sep 0 (cur ++ String c EmptyString) rest
      end
  end.

(** [s.split(sep)] for a non-empty separator (Python raises on an empty one;
    both call sites pass a literal). *)
Definition split (sep s : string) : list string := split_go sep 0 EmptyString s.

(** [s.split(sep)[-1]] *)
Definition split_last (sep s : string) : string :=
  List.last (split sep s) EmptyString.

End PyStr.

(* ================================================================== *)
(** * Python values, exceptions and the libraries the code calls *)
(* ================================================================== *)

Module Py.

(** Exception classes deriving from [Exception] that the modelled code can
    meet.  [json.JSONDecodeError] is what [except json.JSONDecodeError]
    selects; every class here is caught by [except Exception]. *)
Inductive exn_class : Type :=
| JSONDecodeError
| AttributeError
| ValidationError
| IndexError
| KeyError
| OtherException (name : string).

(** An exception instance: its class and [str(e)]. *)
Record exn : Type := mk_exn { exn_cls : exn_class; exn_msg : string }.

Inductive outcome (A : Type) : Type :=
| Returned (a : A)
| Raised (e : exn).
Arguments Returned {A} a.
Arguments Raised {A} e.

(** Values produced by [json.loads]. *)
Inductive json : Type :=
| JNull
| JBool (b : bool)
| JInt (z : Z)
| JFloat (f : float)
| JStr (s : string)
| JList (items : list json)
| JDict (members : list (string * json)).

Definition dict : Type := list (string * json).

(** [bool(v)] *)
Definition truthy (v : json) : bool :=
  match v with
  | JNull => false
  | JBool b => b
  | JInt z => negb (z =? 0)%Z
  | JFloat f => negb (PrimFloat.eqb f 0%float)
  | JStr s => negb (s =? "")
  | JList items => match items with [] => false | _ => true end
  | JDict members => match members with [] => false | _ => true end
  end.

(** [type(v).__name__] *)
Definition type_name (v : json) : string :=
  match v with
  | JNull => "NoneType"
  | JBool _ => "bool"
  | JInt _ => "int"
  | JFloat _ => "float"
  | JStr _ => "str"
  | JList _ => "list"
  | JDict _ => "dict"
  end.

(** [d.get(key)] *)
Fixpoint dict_get (d : dict) (key : string) : json :=
  match d with
  | [] => JNull
  | (k, v) :: rest => if k =? key then v else dict_get rest key
  end.

(** [d[key] = v]: an existing key keeps its position, a new key goes last. *)
Fixpoint dict_set (d : dict) (key : string) (v : json) : dict :=
  match d with
  | [] => [(key, v)]
  | (k, w) :: rest =>
      if k =? key then (k, v) :: rest else (k, w) :: dict_set rest key v
  end.

(** [str(n)] of an [int] *)
Definition str_of_int (z : Z) : string :=
  DecimalString.NilZero.string_of_int (Z.to_int z).

(** What the code uses of the libraries and does not define itself.
    - [json_loads]: [json.loads];
    - [float_repr], [str_repr]: [repr] of a float and of a str, used by
      [str()] of a list or dict;
    - [lax_str], [lax_int], [lax_model]: pydantic's coercions of a value of
      another type into [str], [int] and a model, which depend on the
      pydantic version ([None] where it refuses);
    - [validation_text]: [str(e)] of the [ValidationError] raised for the
      given keyword arguments;
    - [set_iter]: [list(set(xs))], whose order the interpreter picks. *)
Record Lib : Type := {
  json_loads : string -> outcome json;
  float_repr : float -> string;
  str_repr : string -> string;
  lax_str : json -> option string;
  lax_int : json -> option Z;
  lax_model : json -> option dict;
  validation_text : dict -> string;
  set_iter : list string -> list string
}.

(** [repr(v)] *)
Fixpoint py_repr (L : Lib) (v : json) : string :=
  match v with
  | JNull => "None"
  | JBool true => "True"
  | JBool false => "False"
  | JInt z => str_of_int z
  | JFloat f => float_repr L f
  | JStr s => str_repr L s
  | JList items => "[" ++ PyStr.join ", " (map (py_repr L) items) ++ "]"
  | JDict members =>
      "{" ++ PyStr.join ", "
               (map (fun kv => str_repr L (fst kv) ++ ": " ++ py_repr L (snd kv))
                    members) ++ "}"
  end.

(** [str(v)] *)
Definition py_str (L : Lib) (v : json) : string :=
  match v with
  | JStr s => s
  | _ => py_repr L v
  end.

End Py.

(* ================================================================== *)
(** * app/schemas.py *)
(* ================================================================== *)

Module Schemas.
Import Py.

Record PaymentTerms : Type := {
  description : option string;
  due_date : option string
}.

Record ContractSchema : Type := {
  doc_id : option string;
  parties : option string;
  effective_date : option string;
  termination_clause : option string;
  confidentiality_clause : option string;
  governing_law : option string;
  payment_terms : option PaymentTerms;
  risk_score : option Z;
  notes : option string
}.

(** [QueryResponse] / the dict returned by [answer_question]. *)
Record QueryResponse : Type := {
  answer : string;
  citations : list string;
  similarity_scores : list float
}.

(** Validation of one value against [str]: a str is kept as it is, a list
    or a dict is refused, [None] is refused (the [Optional] wrapper sees it
    first), and numbers are left to the library's coercion. *)
Definition validate_str (L : Lib) (v : json) : option string :=
  match v with
  | JStr s => Some s
  | JNull | JList _ | JDict _ => None
  | JBool _ | JInt _ | JFloat _ => lax_str L v
  end.

(** Validation against [int]. *)
Definition validate_int (L : Lib) (v : json) : option Z :=
  match v with
  | JInt z => Some z
  | JNull | JList _ | JDict _ => None
  | JBool _ | JFloat _ | JStr _ => lax_int L v
  end.

(** [Optional[T]] with default [None]: [None] is valid and stays [None]. *)
Definition validate_optional {T : Type} (validate : json -> option T)
    (v : json) : option (option T) :=
  match v with
  | JNull => Some None
  | _ => option_map Some (validate v)
  end.

(** [PaymentTerms] built from the items of a dict as keyword arguments;
    keys other than the two fields are ignored. *)
Definition PaymentTerms_of_dict (L : Lib) (members : dict)
  : option PaymentTerms :=
  match validate_optional (validate_str L) (dict_get members "description"),
        validate_optional (validate_str L) (dict_get members "due_date") with
  | Some d, Some dd => Some {| description := d; due_date := dd |}
  | _, _ => None
  end.

(** Validation against the model [PaymentTerms]. *)
Definition validate_PaymentTerms (L : Lib) (v : json) : option PaymentTerms :=
  match v with
  | JDict members => PaymentTerms_of_dict L members
  | JNull => None
  | _ => match lax_model L v with
         | Some members => PaymentTerms_of_dict L members
         | None => None
         end
  end.

(** [ContractSchema] built from the items of [data] as keyword arguments
    (line 159): each field is looked up by name (a missing
    key takes the default [None]), other keys are ignored; if any field is
    refused the constructor raises [ValidationError]. *)
Definition ContractSchema_init (L : Lib) (data : dict) : outcome ContractSchema :=
  let opt_str key := validate_optional (validate_str L) (dict_get data key) in
  match opt_str "doc_id", opt_str "parties", opt_str "effective_date",
        opt_str "termination_clause", opt_str "confidentiality_clause",
        opt_str "governing_law",
        validate_optional (validate_PaymentTerms L) (dict_get data "payment_terms"),
        validate_optional (validate_int L) (dict_get data "risk_score"),
        opt_str "notes" with
  | Some di, Some pa, Some ed, Some tc, Some cc, Some gl, Some pt, Some rs, Some no =>
      Returned {| doc_id := di; parties := pa; effective_date := ed;
                  termination_clause := tc; confidentiality_clause := cc;
                  governing_law := gl; payment_terms := pt; risk_score := rs;
                  notes := no |}
  | _, _, _, _, _, _, _, _, _ =>
      Raised (mk_exn ValidationError (validation_text L data))
  end.

(** [ContractSchema(doc_id=file_name, notes=text)] with two str arguments:
    the record every degraded path returns. *)
Definition ContractSchema_stub (file_name text : string) : ContractSchema :=
  {| doc_id := Some file_name; parties := None; effective_date := None;
     termination_clause := None; confidentiality_clause := None;
     governing_law := None; payment_terms := None; risk_score := None;
     notes := Some text |}.

End Schemas.

(* ================================================================== *)
(** * Effects: calls to collaborators, in program order *)
(* ================================================================== *)

Module Eff.
Import Py.

Definition embedding : Type := list float.

(** Chunk metadata as [ingest_documents] writes it; a key may be absent. *)
Record metadata : Type := {
  source : option string;
  type_ : option string;
  chunk_index : option Z;
  clause_types : option string
}.

(** The calls whose order the pipeline fixes. *)
Inductive call : Type :=
| CallExtractText (pdf_path : string)
| CallSplitText (text : string)
| CallMaskPii (chunk : string)
| CallEmbedTexts (texts : list string)
| CallDetectClauseTypes (chunk : string)
| CallUpsert (documents : list string) (embeddings : list embedding)
             (metadatas : list metadata) (ids : list string)
| CallCollectionGet (source_name : string)
| CallCollectionQuery (query_embedding : embedding) (n_results : nat)
| CallPipe (prompt : string) (max_new_tokens : nat).

(** The answer of [collection.query]: one inner list per query embedding. *)
Record query_result : Type := {
  documents : list (list string);
  metadatas : list (list metadata);
  distances : list (list float)
}.

(** The collaborators outside the repository.
    - [glob_pdfs dir]: the PDF paths found under [docs/dir];
    - [pdf_pages]: pdfplumber, the text of each page ([None] or an
      exception for a page, or an exception on opening);
    - [split_text]: the recursive character splitter;
    - [nlp_ents]: spaCy's entities as (start_char, end_char, label);
    - [encode]: the sentence-embedding model;
    - [collection_get], [collection_query]: the Chroma collection;
    - [pipe]: the text-generation pipeline, [None] when loading failed. *)
Record World : Type := {
  glob_pdfs : string -> list string;
  pdf_pages : string -> outcome (list (outcome (option string)));
  split_text : string -> list string;
  nlp_ents : string -> list (nat * nat * string);
  encode : list string -> list embedding;
  collection_get : string -> list string * list metadata;
  collection_query : embedding -> nat -> query_result;
  pipe : option (string -> nat -> string)
}.

(** A computation: its outcome and the calls it made, oldest first. *)
Definition M (A : Type) : Type := outcome A * list call.

Definition ret {A : Type} (a : A) : M A := (Returned a, []).

Definition raise {A : Type} (e : exn) : M A := (Raised e, []).

Definition bind {A B : Type} (m : M A) (k : A -> M B) : M B :=
  match m with
  | (Returned a, t1) => let (r, t2) := k a in (r, (t1 ++ t2)%list)
  | (Raised e, t1) => (Raised e, t1)
  end.

(** Record the call [c], whose result is [a]. *)
Definition perform {A : Type} (c : call) (a : A) : M A := (Returned a, [c]).

Definition lift {A : Type} (o : outcome A) : M A := (o, []).

Definition result {A : Type} (m : M A) : outcome A := fst m.
Definition calls {A : Type} (m : M A) : list call := snd m.

Fixpoint for_each {A B : Type} (f : A -> M B) (xs : list A) : M (list B) :=
  match xs with
  | [] => ret []
  | x :: rest =>
      bind (f x) (fun y => bind (for_each f rest) (fun ys => ret (y :: ys)))
  end.

(** [xs[i]] *)
Definition index {A : Type} (xs : list A) (i : nat) : M A :=
  match nth_error xs i with
  | Some x => ret x
  | None => raise (mk_exn IndexError "list index out of range")
  end.

(** [enumerate(xs)] *)
Definition enumerate {A : Type} (xs : list A) : list (nat * A) :=
  combine (seq 0 (List.length xs)) xs.

End Eff.

Declare Scope eff_scope.
Delimit Scope eff_scope with eff.
Notation "x <- m ;; k" := (Eff.bind m (fun x => k))
  (at level 61, m at next level, right associativity) : eff_scope.

(* ================================================================== *)
(** * app/pii.py and app/embeddings.py *)
(* ================================================================== *)

Module Pii.
Import Eff.

Definition replacement : Type := (nat * nat * string)%type.

Definition start_of (r : replacement) : nat := fst (fst r).

(** The first loop of [mask_pii]: one replacement per PERSON, ORG or GPE
    entity, in document order. *)
Definition collect (ents : list (nat * nat * string)) : list replacement :=
  fold_left
    (fun replacements ent =>
       let '(start_char, end_char, label) := ent in
       if (label =? "PERSON") || (label =? "ORG") || (label =? "GPE")
       then (replacements
               ++ [(start_char, end_char, ("[" ++ label ++ "]")%string)])%list
       else replacements)
    ents [].

(** [replacements.sort(key=lambda x: x[0], reverse=True)]: descending by
    start, entries with equal starts keep their order. *)
Fixpoint insert_desc (r : replacement) (sorted : list replacement)
  : list replacement :=
  match sorted with
  | [] => [r]
  | r' :: rest =>
      if (start_of r <? start_of r')%nat then r' :: insert_desc r rest
      else r :: sorted
  end.

Definition sort_desc (rs : list replacement) : list replacement :=
  fold_right insert_desc [] rs.

Definition mask_pii (W : World) (text : string) : string :=
  if text =? "" then ""
  else
    fold_left
      (fun result r =>
         let '(start, end_, label) := r in
         PyStr.take start result ++ label ++ PyStr.drop end_ result)
      (sort_desc (collect (nlp_ents W text))) text.

End Pii.

Module Embeddings.
Import Eff.

Definition embed_texts (W : World) (texts : list string) : list embedding :=
  match texts with
  | [] => []
  | _ => encode W texts
  end.

End Embeddings.

(* ================================================================== *)
(** * app/ingest.py: the clause tagger *)
(* ================================================================== *)

Module Ingest.

(** [CLAUSE_KEYWORDS], in the dict's insertion order. *)
Definition CLAUSE_KEYWORDS : list (string * list string) :=
  [ ("termination",
      ["terminate"; "termination"; "cancel"; "cancellation"; "rescind";
       "end of agreement"; "convenience"; "breach"; "notice period"]);
    ("effective_date",
      ["effective date"; "commencement date"; "start date"; "dated as of";
       "made as of"; "initial term"; "expiration date"]);
    ("renewal",
      ["renew"; "renewal"; "extension"; "extend"; "automatic renewal";
       "successive term"]);
    ("parties",
      ["parties"; "between"; "among"; "entered into by"; "buyer"; "seller";
       "provider"; "customer"; "licensor"; "licensee"; "grantor"; "grantee";
       "landlord"; "tenant"; "contractor"]);
    ("governing_law",
      ["governing law"; "jurisdiction"; "laws of"; "venue"; "courts of";
       "construed in accordance"; "dispute resolution"; "arbitration"]);
    ("confidentiality",
      ["confidential"; "confidentiality"; "non-disclosure"; "secrecy";
       "proprietary information"; "trade secret"]);
    ("payment_terms",
      ["payment"; "fees"; "invoice"; "due date"; "remittance"; "pricing";
       "compensation"; "royalties"; "minimum commitment"]);
    ("liability",
      ["liability"; "indemnification"; "damages"; "limitation of liability";
       "hold harmless"; "cap on liability"; "liquidated damages"; "warranty"]);
    ("license_ip",
      ["license grant"; "intellectual property"; "ownership"; "work for hire";
       "assignment"; "patent"; "trademark"; "copyright"; "source code"]);
    ("restrictive_covenants",
      ["non-compete"; "exclusivity"; "non-solicit"; "competitive restriction";
       "most favored nation"; "territory"]) ].

(** [any(kw in text_lower for kw in keywords)] *)
Definition any_keyword (keywords : list string) (text_lower : string) : bool :=
  existsb (fun kw => PyStr.str_in kw text_lower) keywords.

(** The loop of [detect_clause_types]: the list [detected] after iterating
    over the items of a keyword table, appending each matching clause. *)
Definition detect_loop (table : list (string * list string))
    (text_lower : string) : list string :=
  fold_left
    (fun detected item =>
       if any_keyword (snd item) text_lower
       then (detected ++ [fst item])%list else detected)
    table [].

Definition detected (text : string) : list string :=
  detect_loop CLAUSE_KEYWORDS (PyStr.lower text).

(** [detect_clause_types(text)]: comma-joined tags, or ["general"]. *)
Definition detect_clause_types (text : string) : string :=
  match detected text with
  | [] => "general"
  | tags => PyStr.join "," tags
  end.

Import Py Eff.
Local Open Scope eff_scope.

(** The page loop of [extract_text_from_pdf]; an exception ends the loop
    and the text read so far is returned. *)
Fixpoint read_pages (pages : list (outcome (option string))) (text : string)
  : string :=
  match pages with
  | [] => text
  | Raised _ :: _ => text
  | Returned page_text :: rest =>
      match page_text with
      | None | Some EmptyString => read_pages rest text
      | Some t => read_pages rest (text ++ t ++ PyStr.nl)
      end
  end.

Definition extract_text_from_pdf (W : World) (pdf_path : string) : string :=
  match pdf_pages W pdf_path with
  | Raised _ => ""
  | Returned pages => read_pages pages ""
  end.

(** The body of the [for file_path in all_files] loop. *)
Definition ingest_file (W : World) (file_path : string) : M unit :=
  let file_name := PyStr.split_last "/" file_path in
  let doc_type :=
    if PyStr.str_in "policies" file_path then "policy" else "contract" in
  raw_text <- perform (CallExtractText file_path)
                      (extract_text_from_pdf W file_path) ;;
  if raw_text =? "" then ret tt
  else
    raw_chunks <- perform (CallSplitText raw_text) (split_text W raw_text) ;;
    match raw_chunks with
    | [] => ret tt
    | _ =>
        chunks <- for_each
                    (fun chunk =>
                       perform (CallMaskPii chunk) (Pii.mask_pii W chunk))
                    raw_chunks ;;
        embeddings <- perform (CallEmbedTexts chunks)
                              (Embeddings.embed_texts W chunks) ;;
        let ids :=
          map (fun i => file_name ++ "_" ++ str_of_int (Z.of_nat i))
              (seq 0 (List.length chunks)) in
        metadatas <- for_each
                       (fun ic =>
                          clause_tags <-
                            perform (CallDetectClauseTypes (snd ic))
                                    (detect_clause_types (snd ic)) ;;
                          ret {| source := Some file_name;
                                 type_ := Some doc_type;
                                 chunk_index := Some (Z.of_nat (fst ic));
                                 clause_types := Some clause_tags |})
                       (enumerate chunks) ;;
        perform (CallUpsert chunks embeddings metadatas ids) tt
    end.

Definition ingest_documents (W : World) : M unit :=
  let all_files := (glob_pdfs W "policies" ++ glob_pdfs W "contracts")%list in
  _ <- for_each (ingest_file W) all_files ;;
  ret tt.

End Ingest.

(* ================================================================== *)
(** * app/rag_service.py *)
(* ================================================================== *)

Module RagService.
Import Py Eff Schemas.
Local Open Scope eff_scope.

Definition DISTANCE_THRESHOLD : float := 1.0%float.

(** One entry of [retrieved_docs]. *)
Record retrieved_doc : Type := {
  text : string;
  metadata_of : metadata;
  score : float
}.

(** [RAGService.retrieve] *)
Definition retrieve (W : World) (query : string) (top_k : nat)
  : M (list retrieved_doc) :=
  embedded <- perform (CallEmbedTexts [query])
                      (Embeddings.embed_texts W [query]) ;;
  query_embedding <- index embedded 0 ;;
  results <- perform (CallCollectionQuery query_embedding top_k)
                     (collection_query W query_embedding top_k) ;;
  match documents results with
  | [] => ret []
  | first_docs :: _ =>
      for_each
        (fun id =>
           first_metas <- index (metadatas results) 0 ;;
           metadata <- index first_metas (fst id) ;;
           first_dists <- index (distances results) 0 ;;
           distance <- index first_dists (fst id) ;;
           ret {| text := snd id; metadata_of := metadata; score := distance |})
        (enumerate first_docs)
  end.

(** [d['score'] < DISTANCE_THRESHOLD] *)
Definition is_relevant (d : retrieved_doc) : bool :=
  PrimFloat.ltb (score d) DISTANCE_THRESHOLD.

(** [[d for d in docs if d['score'] < DISTANCE_THRESHOLD]] *)
Definition relevant_docs (docs : list retrieved_doc) : list retrieved_doc :=
  filter is_relevant docs.

(** [d['metadata']['source']] *)
Definition source_of (d : retrieved_doc) : M string :=
  match source (metadata_of d) with
  | Some s => ret s
  | None => raise (mk_exn KeyError "'source'")
  end.

Definition qa_prompt (context question : string) : string :=
  PyStr.join PyStr.nl
    [ "<|system|>";
      "You are a helpful compliance assistant. Answer the question based ONLY on the provided context. ";
      "If the answer is not in the context, say " ++ PyStr.dq
        ++ "No relevant info found." ++ PyStr.dq;
      "Include citations to the source documents.";
      "<|end|>";
      "<|user|>";
      "Context:";
      context;
      "";
      "Question: " ++ question;
      "<|end|>";
      "<|assistant|>" ].

(** The part of [answer_question] after [docs = self.retrieve(question)]. *)
Definition answer_from (L : Lib) (W : World) (question : string)
    (docs : list retrieved_doc) : M QueryResponse :=
  let relevant := relevant_docs docs in
  match relevant with
  | [] => ret {| answer := "No relevant info found.";
                 citations := [];
                 similarity_scores := [] |}
  | _ =>
      blocks <- for_each
                  (fun d =>
                     src <- source_of d ;;
                     ret ("Source: " ++ src ++ PyStr.nl ++ "Content: " ++ text d))
                  relevant ;;
      let context := PyStr.join (PyStr.nl ++ PyStr.nl) blocks in
      let prompt := qa_prompt context question in
      answer_text <-
        match pipe W with
        | Some generate =>
            generated_text <- perform (CallPipe prompt 900) (generate prompt 900) ;;
            ret (PyStr.strip (PyStr.split_last "<|assistant|>" generated_text))
        | None => ret "LLM not loaded. Cannot generate answer."
        end ;;
      sources <- for_each source_of relevant ;;
      ret {| answer := answer_text;
             citations := set_iter L sources;
             similarity_scores := map score relevant |}
  end.

(** [RAGService.answer_question]; [retrieve] is called with its default
    [top_k = 3]. *)
Definition answer_question (L : Lib) (W : World) (question : string)
  : M QueryResponse :=
  docs <- retrieve W question 3 ;;
  answer_from L W question docs.

End RagService.

(* ================================================================== *)
(** * app/contract_analyzer.py *)
(* ================================================================== *)

Module ContractAnalyzer.
Import Py Eff Schemas.
Local Open Scope eff_scope.

(** The dict [relevant_sections]: one list of chunk texts per bucket. *)
Record relevant_sections : Type := {
  sec_parties : list string;
  sec_effective_date : list string;
  sec_termination : list string;
  sec_governing_law : list string;
  sec_confidentiality : list string;
  sec_payment_terms : list string;
  sec_liability : list string;
  sec_general : list string
}.

Definition empty_sections : relevant_sections :=
  {| sec_parties := []; sec_effective_date := []; sec_termination := [];
     sec_governing_law := []; sec_confidentiality := [];
     sec_payment_terms := []; sec_liability := []; sec_general := [] |}.

(** [meta.get("clause_types", "general")] *)
Definition tags_of (meta : metadata) : string :=
  match clause_types meta with
  | Some tags => tags
  | None => "general"
  end.

(** [meta.get("chunk_index", 999)] *)
Definition index_of (meta : metadata) : Z :=
  match chunk_index meta with
  | Some i => i
  | None => 999%Z
  end.

Definition in_parties (meta : metadata) : bool :=
  PyStr.str_in "parties" (tags_of meta).
Definition in_effective_date (meta : metadata) : bool :=
  PyStr.str_in "effective_date" (tags_of meta)
  || PyStr.str_in "renewal" (tags_of meta).
Definition in_termination (meta : metadata) : bool :=
  PyStr.str_in "termination" (tags_of meta).
Definition in_governing_law (meta : metadata) : bool :=
  PyStr.str_in "governing_law" (tags_of meta).
Definition in_confidentiality (meta : metadata) : bool :=
  PyStr.str_in "confidentiality" (tags_of meta).
Definition in_payment_terms (meta : metadata) : bool :=
  PyStr.str_in "payment_terms" (tags_of meta).
Definition in_liability (meta : metadata) : bool :=
  PyStr.str_in "liability" (tags_of meta)
  || PyStr.str_in "restrictive_covenants" (tags_of meta)
  || PyStr.str_in "license_ip" (tags_of meta).
Definition in_general (meta : metadata) : bool :=
  (index_of meta <? 3)%Z.

(** [bucket.append(doc)] under its condition. *)
Definition append_if (cond : bool) (bucket : list string) (doc : string)
  : list string :=
  if cond then (bucket ++ [doc])%list else bucket.

(** One iteration of [for doc, meta in zip(documents, metadatas)]. *)
Definition distribute (rs : relevant_sections) (dm : string * metadata)
  : relevant_sections :=
  let (doc, meta) := dm in
  {| sec_parties := append_if (in_parties meta) (sec_parties rs) doc;
     sec_effective_date :=
       append_if (in_effective_date meta) (sec_effective_date rs) doc;
     sec_termination := append_if (in_termination meta) (sec_termination rs) doc;
     sec_governing_law :=
       append_if (in_governing_law meta) (sec_governing_law rs) doc;
     sec_confidentiality :=
       append_if (in_confidentiality meta) (sec_confidentiality rs) doc;
     sec_payment_terms :=
       append_if (in_payment_terms meta) (sec_payment_terms rs) doc;
     sec_liability := append_if (in_liability meta) (sec_liability rs) doc;
     sec_general := append_if (in_general meta) (sec_general rs) doc |}.

Definition build_sections (docs : list string) (metas : list metadata)
  : relevant_sections :=
  fold_left distribute (combine docs metas) empty_sections.

(** [get_top_chunks(chunks, limit)] *)
Definition get_top_chunks (chunks : list string) (limit : nat) : string :=
  PyStr.join (PyStr.nl ++ "..." ++ PyStr.nl) (firstn limit chunks).

(** The list [context_parts]. *)
Definition context_parts (rs : relevant_sections) : list string :=
  [ "--- INTRO ---" ++ PyStr.nl ++ get_top_chunks (sec_general rs) 3;
    "--- PARTIES ---" ++ PyStr.nl ++ get_top_chunks (sec_parties rs) 2;
    "--- DATES ---" ++ PyStr.nl ++ get_top_chunks (sec_effective_date rs) 2;
    "--- TERMINATION ---" ++ PyStr.nl ++ get_top_chunks (sec_termination rs) 2;
    "--- LAW ---" ++ PyStr.nl ++ get_top_chunks (sec_governing_law rs) 2;
    "--- PAYMENT ---" ++ PyStr.nl ++ get_top_chunks (sec_payment_terms rs) 2;
    "--- RISK FACTORS (Liability/IP/Restrictions) ---" ++ PyStr.nl
      ++ get_top_chunks (sec_liability rs) 3 ].

Definition full_context (rs : relevant_sections) : string :=
  PyStr.join (PyStr.nl ++ PyStr.nl) (context_parts rs).

(** [full_context[:6000]] *)
Definition CONTEXT_BUDGET : nat := 6000.

Definition context_text (rs : relevant_sections) : string :=
  PyStr.take CONTEXT_BUDGET (full_context rs).

(** The text of the prompt before and after the interpolated context. *)
Definition prompt_head (file_name : string) : string :=
  PyStr.join PyStr.nl
    [ "<|system|>";
      "You are a legal expert. Analyze the following contract text segments and extract the required fields in STRICT JSON format.";
      "Do not include any markdown formatting or explanation. Just the JSON.";
      "Fields required:";
      "- doc_id: " ++ PyStr.dq ++ file_name ++ PyStr.dq;
      "- parties: Who are the parties?";
      "- effective_date: When does it start?";
      "- termination_clause: Summary of termination rights.";
      "- confidentiality_clause: Summary of confidentiality obligations.";
      "- governing_law: Which jurisdiction?";
      "- payment_terms: { " ++ PyStr.dq ++ "description" ++ PyStr.dq ++ ": "
        ++ PyStr.dq ++ "..." ++ PyStr.dq ++ ", " ++ PyStr.dq ++ "due_date"
        ++ PyStr.dq ++ ": " ++ PyStr.dq ++ "..." ++ PyStr.dq ++ " }";
      "- risk_score: Integer 0-100 based on risk (high liability, strict termination = high risk).";
      "- notes: Any other key observations.";
      "";
      "If a field is not found, use null.";
      "<|end|>";
      "<|user|>";
      "Contract Segments:";
      "" ].

Definition prompt_tail : string :=
  PyStr.join PyStr.nl [ ""; "<|end|>"; "<|assistant|>" ].

Definition build_prompt (file_name context : string) : string :=
  prompt_head file_name ++ context ++ prompt_tail.

(** Lines 127 and 130: the text after the last assistant marker, without
    code-fence markers. *)
Definition clean_response (generated_text : string) : string :=
  let response := PyStr.strip (PyStr.split_last "<|assistant|>" generated_text) in
  PyStr.strip (PyStr.replace "```" "" (PyStr.replace "```json" "" response)).

Definition string_fields : list string :=
  [ "parties"; "effective_date"; "termination_clause";
    "confidentiality_clause"; "governing_law"; "notes" ].

(** [", ".join([str(item) for item in val])] *)
Definition join_items (L : Lib) (items : list json) : string :=
  PyStr.join ", " (map (py_str L) items).

(** [", ".join([f"{k}: {v}" for k, v in val.items()])] *)
Definition join_members (L : Lib) (members : dict) : string :=
  PyStr.join ", " (map (fun kv => fst kv ++ ": " ++ py_str L (snd kv)) members).

(** One iteration of [for field in string_fields]. *)
Definition repair_string_field (L : Lib) (data : dict) (field : string) : dict :=
  let val := dict_get data field in
  if truthy val then
    match val with
    | JList items => dict_set data field (JStr (join_items L items))
    | JDict members => dict_set data field (JStr (join_members L members))
    | _ => data
    end
  else data.

(** Lines 150 to 157. *)
Definition repair_payment_terms (L : Lib) (data : dict) : dict :=
  let pt := dict_get data "payment_terms" in
  if truthy pt then
    match pt with
    | JStr s => dict_set data "payment_terms" (JDict [("description", JStr s)])
    | JList items =>
        dict_set data "payment_terms"
                 (JDict [("description", JStr (join_items L items))])
    | _ => data
    end
  else data.

Definition repair (L : Lib) (data : dict) : dict :=
  repair_payment_terms L (fold_left (repair_string_field L) string_fields data).

(** The body of the [try] block, lines 133 to 160.  A parsed value that is
    not a dict has no [get]: the first [data.get(field)] raises. *)
Definition try_body (L : Lib) (response : string) : outcome ContractSchema :=
  match json_loads L response with
  | Raised e => Raised e
  | Returned (JDict data) => ContractSchema_init L (repair L data)
  | Returned other =>
      Raised (mk_exn AttributeError
                ("'" ++ type_name other ++ "' object has no attribute 'get'"))
  end.

(** The [try] statement with its two handlers, lines 132 to 166. *)
Definition coerce_response (L : Lib) (response file_name : string)
  : outcome ContractSchema :=
  match try_body L response with
  | Returned contract_data => Returned contract_data
  | Raised e =>
      match exn_cls e with
      | JSONDecodeError =>
          Returned (ContractSchema_stub file_name
                      ("Failed to parse analysis result. Raw output: "
                         ++ PyStr.take 100 response))
      | _ =>
          Returned (ContractSchema_stub file_name
                      ("Validation error: " ++ exn_msg e))
      end
  end.

(** Lines 126 to 166: from the generated text to the record. *)
Definition coerce (L : Lib) (generated_text file_name : string)
  : outcome ContractSchema :=
  coerce_response L (clean_response generated_text) file_name.

(** [ContractAnalyzer.analyze] *)
Definition analyze (L : Lib) (W : World) (file_name : string)
  : M ContractSchema :=
  results <- perform (CallCollectionGet file_name) (collection_get W file_name) ;;
  let (docs, metas) := results in
  match docs with
  | [] => ret (ContractSchema_stub file_name "No content found.")
  | _ =>
      let prompt :=
        build_prompt file_name (context_text (build_sections docs metas)) in
      match pipe W with
      | Some generate =>
          generated_text <- perform (CallPipe prompt 500) (generate prompt 500) ;;
          lift (coerce L generated_text file_name)
      | None => ret (ContractSchema_stub file_name "LLM not loaded.")
      end
  end.

End ContractAnalyzer.

(* ================================================================== *)
(** * A concrete library and world, to run the model on examples *)
(* ================================================================== *)

(** The theorems below hold for every [Lib] and [World].  This module gives
    one of each so that they can be evaluated on concrete inputs: a JSON
    reader for the float-free fragment of JSON without unicode escapes, and
    a pydantic that refuses every coercion (strict mode). *)
Module Reference.
Import Py Eff.

Definition dq_char : ascii := ascii_of_nat 34.

Definition is_ws (c : ascii) : bool :=
  (c =? " ")%char || (c =? ascii_of_nat 9)%char
  || (c =? ascii_of_nat 10)%char || (c =? ascii_of_nat 13)%char.

Fixpoint skip_ws (s : string) : string :=
  match s with
  | String c rest => if is_ws c then skip_ws rest else s
  | EmptyString => EmptyString
  end.

Definition digit_value (c : ascii) : option Z :=
  let n := nat_of_ascii c in
  if (48 <=? n)%nat && (n <=? 57)%nat then Some (Z.of_nat (n - 48)) else None.

Fixpoint read_digits (s : string) (acc : Z) : Z * string :=
  match s with
  | String c rest =>
      match digit_value c with
      | Some d => read_digits rest (10 * acc + d)%Z
      | None => (acc, s)
      end
  | EmptyString => (acc, s)
  end.

(** An unsigned integer literal; a fraction or an exponent is outside the
    fragment. *)
Definition read_nat (s : string) : option (Z * string) :=
  match s with
  | String c rest =>
      match digit_value c with
      | Some d =>
          let (n, after) := if (d =? 0)%Z then (0%Z, rest) else read_digits rest d in
          match after with
          | String c' _ =>
              if (c' =? ".")%char || (c' =? "e")%char || (c' =? "E")%char
              then None else Some (n, after)
          | EmptyString => Some (n, after)
          end
      | None => None
      end
  | EmptyString => None
  end.

Definition unescape (c : ascii) : option ascii :=
  if (c =? dq_char)%char then Some dq_char
  else if (c =? "\")%char then Some "\"%char
  else if (c =? "/")%char then Some "/"%char
  else if (c =? "b")%char then Some (ascii_of_nat 8)
  else if (c =? "f")%char then Some (ascii_of_nat 12)
  else if (c =? "n")%char then Some (ascii_of_nat 10)
  else if (c =? "r")%char then Some (ascii_of_nat 13)
  else if (c =? "t")%char then Some (ascii_of_nat 9)
  else None.

(** The characters of a string literal after its opening quote. *)
Fixpoint read_string (s : string) (acc : string) : option (string * string) :=
  match s with
  | EmptyString => None
  | String c rest =>
      if (c =? dq_char)%char then Some (acc, rest)
      else if (c =? "\")%char then
        match rest with
        | String e rest' =>
            match unescape e with
            | Some u => read_string rest' (acc ++ String u EmptyString)
            | None => None
            end
        | EmptyString => None
        end
      else if (nat_of_ascii c <? 32)%nat then None
      else read_string rest (acc ++ String c EmptyString)
  end.

Definition expect (word : string) (s : string) (v : json)
  : option (json * string) :=
  if String.prefix word s then Some (v, PyStr.drop (String.length word) s)
  else None.

Fixpoint parse_value (fuel : nat) (s : string) {struct fuel}
  : option (json * string) :=
  match fuel with
  | O => None
  | S f =>
      match skip_ws s with
      | EmptyString => None
      | String c rest as here =>
          if (c =? "n")%char then expect "null" here JNull
          else if (c =? "t")%char then expect "true" here (JBool true)
          else if (c =? "f")%char then expect "false" here (JBool false)
          else if (c =? dq_char)%char then
            option_map (fun p => (JStr (fst p), snd p)) (read_string rest "")
          else if (c =? "[")%char then
            match skip_ws rest with
            | String c' rest' =>
                if (c' =? "]")%char then Some (JList [], rest')
                else parse_items f rest []
            | EmptyString => None
            end
          else if (c =? "{")%char then
            match skip_ws rest with
            | String c' rest' =>
                if (c' =? "}")%char then Some (JDict [], rest')
                else parse_members f rest []
            | EmptyString => None
            end
          else if (c =? "-")%char then
            option_map (fun p => (JInt (- fst p), snd p)) (read_nat rest)
          else option_map (fun p => (JInt (fst p), snd p)) (read_nat here)
      end
  end
with parse_items (fuel : nat) (s : string) (acc : list json) {struct fuel}
  : option (json * string) :=
  match fuel with
  | O => None
  | S f =>
      match parse_value f s with
      | Some (v, rest) =>
          match skip_ws rest with
          | String c rest' =>
              if (c =? ",")%char then parse_items f rest' (acc ++ [v])%list
              else if (c =? "]")%char then Some (JList (acc ++ [v])%list, rest')
              else None
          | EmptyString => None
          end
      | None => None
      end
  end
with parse_members (fuel : nat) (s : string) (acc : dict) {struct fuel}
  : option (json * string) :=
  match fuel with
  | O => None
  | S f =>
      match skip_ws s with
      | String c rest =>
          if (c =? dq_char)%char then
            match read_string rest "" with
            | Some (key, rest1) =>
                match skip_ws rest1 with
                | String c1 rest2 =>
                    if (c1 =? ":")%char then
                      match parse_value f rest2 with
                      | Some (v, rest3) =>
                          match skip_ws rest3 with
                          | String c3 rest4 =>
                              if (c3 =? ",")%char
                              then parse_members f rest4 (dict_set acc key v)
                              else if (c3 =? "}")%char
                              then Some (JDict (dict_set acc key v), rest4)
                              else None
                          | EmptyString => None
                          end
                      | None => None
                      end
                    else None
                | EmptyString => None
                end
            | None => None
            end
          else None
      | EmptyString => None
      end
  end.

Definition loads (s : string) : outcome json :=
  match parse_value (2 * String.length s + 2) s with
  | Some (v, rest) =>
      match skip_ws rest with
      | EmptyString => Returned v
      | _ => Raised (mk_exn JSONDecodeError "Extra data")
      end
  | None => Raised (mk_exn JSONDecodeError "Expecting value")
  end.

(** [repr] of a str without quotes, backslashes or control characters. *)
Definition quote (s : string) : string := "'" ++ s ++ "'".

Definition lib : Lib :=
  {| json_loads := loads;
     float_repr := fun _ => "nan";
     str_repr := quote;
     lax_str := fun _ => None;
     lax_int := fun _ => None;
     lax_model := fun _ => None;
     validation_text := fun _ => "1 validation error for ContractSchema";
     set_iter := nodup string_dec |}.

(** A world over a fixed store: [collection.get] selects the chunks of a
    source, [collection.query] answers with the whole store at the given
    distances, and the pipeline (when loaded) echoes the prompt followed by
    a fixed reply. *)
Definition world (store : list (string * metadata * float))
    (reply : option string) : World :=
  {| glob_pdfs := fun _ => [];
     pdf_pages := fun _ => Returned [];
     split_text := fun _ => [];
     nlp_ents := fun _ => [];
     encode := map (fun _ => []);
     collection_get := fun name =>
       let hits :=
         filter (fun e => match source (snd (fst e)) with
                          | Some src => src =? name
                          | None => false
                          end) store in
       (map (fun e => fst (fst e)) hits, map (fun e => snd (fst e)) hits);
     collection_query := fun _ n =>
       let hits := firstn n store in
       {| documents := [map (fun e => fst (fst e)) hits];
          metadatas := [map (fun e => snd (fst e)) hits];
          distances := [map snd hits] |};
     pipe := option_map (fun r prompt _ => prompt ++ r) reply |}.

(** A world for ingestion: one contract of one page, kept as a single
    chunk, in which the entity recogniser finds one organisation. *)
Definition nda_page : string :=
  "This Agreement may be terminated upon 30 days notice by Acme Corp.".

Definition ingest_world : World :=
  {| glob_pdfs := fun dir =>
       if dir =? "contracts" then ["docs/contracts/nda.pdf"] else [];
     pdf_pages := fun _ => Returned [Returned (Some nda_page)];
     split_text := fun text => [text];
     nlp_ents := fun _ => [(56, 65, "ORG")]%nat;
     encode := map (fun _ => [0.5%float]);
     collection_get := fun _ => ([], []);
     collection_query := fun _ _ =>
       {| documents := []; metadatas := []; distances := [] |};
     pipe := None |}.

Definition meta (src tags : string) (i : Z) : metadata :=
  {| source := Some src; type_ := Some "contract";
     chunk_index := Some i; clause_types := Some tags |}.

End Reference.

(* ================================================================== *)
(** * The vocabulary of the statements, and sample data *)
(* ================================================================== *)

Import Py Schemas Eff.

Module TaggerSpec.
Import Ingest.

(** [kw] occurs in [text] up to letter case. *)
Definition occurs_ci (kw text : string) : Prop :=
  exists pre mid post,
    text = pre ++ mid ++ post /\ PyStr.lower mid = PyStr.lower kw.

(** Some trigger phrase of [clause] occurs in [text] up to letter case. *)
Definition triggered (clause text : string) : Prop :=
  exists keywords kw,
    In (clause, keywords) CLAUSE_KEYWORDS /\ In kw keywords /\ occurs_ci kw text.

Definition clause_names : list string := map fst CLAUSE_KEYWORDS.

(** All sub-sequences of a list. *)
Fixpoint sublists {A : Type} (l : list A) : list (list A) :=
  match l with
  | [] => [[]]
  | x :: rest => (map (cons x) (sublists rest) ++ sublists rest)%list
  end.

(** What [detect_clause_types] returns when the loop ends with [tags]. *)
Definition render (tags : list string) : string :=
  match tags with
  | [] => "general"
  | _ => PyStr.join "," tags
  end.

End TaggerSpec.

Module TraceSpec.

(** Every call made by [m] satisfies [ok]. *)
Definition all_calls {A : Type} (ok : call -> bool) (m : M A) : Prop :=
  forallb ok (calls m) = true.

End TraceSpec.

Module RagSpec.
Import RagService.

Definition no_relevant_info : QueryResponse :=
  {| answer := "No relevant info found."; citations := []; similarity_scores := [] |}.

Definition is_pipe_call (c : call) : bool :=
  match c with
  | CallPipe _ _ => true
  | _ => false
  end.

Definition far_store : list (string * metadata * float) :=
  [ ("Leave policy text", Reference.meta "leave.pdf" "general" 0, 1.3%float);
    ("Travel policy text", Reference.meta "travel.pdf" "general" 0, 1.7%float) ].

End RagSpec.

Module ContextSpec.
Import ContractAnalyzer.

(** The chunks whose metadata satisfies [p], in store order. *)
Definition members (p : metadata -> bool) (dms : list (string * metadata))
  : list string :=
  map fst (filter (fun dm => p (snd dm)) dms).


Definition chunk_separator : string := PyStr.nl ++ "..." ++ PyStr.nl.

Definition section_separator : string := PyStr.nl ++ PyStr.nl.

Definition labelled (label body : string) : string :=
  "--- " ++ label ++ " ---" ++ PyStr.nl ++ body.

(** The sections of the context, as (label, bucket test, limit). *)
Definition layout : list (string * (metadata -> bool) * nat) :=
  [ ("INTRO", in_general, 3);
    ("PARTIES", in_parties, 2);
    ("DATES", in_effective_date, 2);
    ("TERMINATION", in_termination, 2);
    ("LAW", in_governing_law, 2);
    ("PAYMENT", in_payment_terms, 2);
    ("RISK FACTORS (Liability/IP/Restrictions)", in_liability, 3) ]%nat.

(** A chunk of [n] copies of one character. *)
Fixpoint filler (c : ascii) (n : nat) : string :=
  match n with
  | O => EmptyString
  | S k => String c (filler c k)
  end.

Definition long_docs : list string := [ filler "x" 7000 ].
Definition long_metas : list metadata := [ Reference.meta "big.pdf" "general" 0 ].

Definition secret_docs : list string := [ "Each party shall keep the terms secret." ].
Definition secret_metas : list metadata :=
  [ Reference.meta "nda.pdf" "confidentiality" 7 ].


End ContextSpec.

Module IngestSpec.
Import Ingest.

Definition is_mask (c : call) : bool :=
  match c with CallMaskPii _ => true | _ => false end.
Definition is_tag (c : call) : bool :=
  match c with CallDetectClauseTypes _ => true | _ => false end.
Definition is_embed (c : call) : bool :=
  match c with CallEmbedTexts _ => true | _ => false end.

(** In [trace], every call selected by [a] comes before every call
    selected by [b]. *)
Definition precedes (a b : call -> bool) (trace : list call) : Prop :=
  forall i j ca cb,
    nth_error trace i = Some ca -> a ca = true ->
    nth_error trace j = Some cb -> b cb = true -> (i < j)%nat.

(** The metadata written for the chunk at position [fst ic]. *)
Definition chunk_metadata (file_name doc_type : string) (ic : nat * string)
  : metadata :=
  {| source := Some file_name;
     type_ := Some doc_type;
     chunk_index := Some (Z.of_nat (fst ic));
     clause_types := Some (detect_clause_types (snd ic)) |}.

(** The calls made for one document whose text splits into [raw_chunks]. *)
Definition document_trace (W : World) (file_path raw_text : string)
    (raw_chunks : list string) : list call :=
  let file_name := PyStr.split_last "/" file_path in
  let doc_type :=
    if PyStr.str_in "policies" file_path then "policy" else "contract" in
  let chunks := map (Pii.mask_pii W) raw_chunks in
  let ids :=
    map (fun i => file_name ++ "_" ++ str_of_int (Z.of_nat i))
        (seq 0 (List.length chunks)) in
  let metas := map (chunk_metadata file_name doc_type) (enumerate chunks) in
  ([ CallExtractText file_path; CallSplitText raw_text ]
     ++ map CallMaskPii raw_chunks
     ++ [ CallEmbedTexts chunks ]
     ++ map CallDetectClauseTypes chunks
     ++ [ CallUpsert chunks (Embeddings.embed_texts W chunks) metas ids ])%list.

(** The pipeline step a call belongs to. *)
Definition step_name (c : call) : string :=
  match c with
  | CallExtractText _ => "extract"
  | CallSplitText _ => "chunk"
  | CallMaskPii _ => "mask"
  | CallEmbedTexts _ => "embed"
  | CallDetectClauseTypes _ => "tag"
  | CallUpsert _ _ _ _ => "upsert"
  | CallCollectionGet _ => "get"
  | CallCollectionQuery _ _ => "query"
  | CallPipe _ _ => "generate"
  end.

End IngestSpec.

Module CoerceSpec.
Import ContractAnalyzer.

(** The value that the repair loop leaves under a string field. *)
Definition repaired_value (L : Lib) (val : json) : json :=
  if truthy val then
    match val with
    | JList items => JStr (join_items L items)
    | JDict members => JStr (join_members L members)
    | _ => val
    end
  else val.

(** The string-typed field of the record that a field name denotes. *)
Definition string_field (r : ContractSchema) (field : string) : option string :=
  if field =? "parties" then parties r
  else if field =? "effective_date" then effective_date r
  else if field =? "termination_clause" then termination_clause r
  else if field =? "confidentiality_clause" then confidentiality_clause r
  else if field =? "governing_law" then governing_law r
  else if field =? "notes" then notes r
  else None.

(** The claim about shape repair as first stated, for one response: every
    string field that holds a list or a mapping comes out as the joined
    string. *)
Definition joins_every_collection (L : Lib) (response file_name : string) : Prop :=
  forall data field,
    json_loads L response = Returned (JDict data) ->
    In field string_fields ->
    (forall items, dict_get data field = JList items ->
       exists r, coerce_response L response file_name = Returned r
                 /\ string_field r field = Some (join_items L items))
    /\ (forall members, dict_get data field = JDict members ->
          exists r, coerce_response L response file_name = Returned r
                    /\ string_field r field = Some (join_members L members)).

(** The cleaned response that [analyze] parses, when it gets that far. *)
Definition parsed_response (W : World) (file_name : string) : option string :=
  match collection_get W file_name, pipe W with
  | (doc :: docs, metas), Some generate =>
      Some (clean_response
              (generate (build_prompt file_name
                           (context_text (build_sections (doc :: docs) metas)))
                        500%nat))
  | _, _ => None
  end.

(** The degraded paths of [analyze], each with the note it leaves. *)
Inductive degraded_path (L : Lib) (W : World) (file_name : string)
  : string -> Prop :=
| NoChunks :
    fst (collection_get W file_name) = [] ->
    degraded_path L W file_name "No content found."
| ModelUnavailable :
    fst (collection_get W file_name) <> [] ->
    pipe W = None ->
    degraded_path L W file_name "LLM not loaded."
| ParseFailure (response : string) (e : exn) :
    parsed_response W file_name = Some response ->
    json_loads L response = Raised e ->
    exn_cls e = JSONDecodeError ->
    degraded_path L W file_name
      ("Failed to parse analysis result. Raw output: " ++ PyStr.take 100 response)
| ValidationFailure (response : string) (data : dict) (e : exn) :
    parsed_response W file_name = Some response ->
    json_loads L response = Returned (JDict data) ->
    ContractSchema_init L (repair L data) = Raised e ->
    degraded_path L W file_name ("Validation error: " ++ exn_msg e)
| NotAnObject (response : string) (v : json) :
    parsed_response W file_name = Some response ->
    json_loads L response = Returned v ->
    (forall data, v <> JDict data) ->
    degraded_path L W file_name
      ("Validation error: '" ++ type_name v ++ "' object has no attribute 'get'").

Definition nda_store : list (string * metadata * float) :=
  [ ("This Agreement is made between Acme Corp and Beta LLC.",
     Reference.meta "nda.pdf" "parties" 0, 0.4%float);
    ("Either party may terminate upon 30 days notice.",
     Reference.meta "nda.pdf" "termination" 1, 0.7%float) ].

Definition quoted (s : string) : string := PyStr.dq ++ s ++ PyStr.dq.

(** A response with a list under [parties] and a mapping under
    [governing_law]. *)
Definition collections_response : string :=
  "{" ++ quoted "parties" ++ ": [" ++ quoted "Acme Corp" ++ ", "
      ++ quoted "Beta LLC" ++ "], "
      ++ quoted "governing_law" ++ ": {" ++ quoted "state" ++ ": "
      ++ quoted "New York" ++ ", " ++ quoted "venue" ++ ": "
      ++ quoted "Manhattan" ++ "}, "
      ++ quoted "risk_score" ++ ": 40}".

Definition collections_data : dict :=
  [ ("parties", JList [JStr "Acme Corp"; JStr "Beta LLC"]);
    ("governing_law",
     JDict [("state", JStr "New York"); ("venue", JStr "Manhattan")]);
    ("risk_score", JInt 40) ].

Definition collections_record : ContractSchema :=
  {| doc_id := None;
     parties := Some "Acme Corp, Beta LLC";
     effective_date := None;
     termination_clause := None;
     confidentiality_clause := None;
     governing_law := Some "state: New York, venue: Manhattan";
     payment_terms := None;
     risk_score := Some 40%Z;
     notes := None |}.

(** Two responses on which the claim as first stated fails: a list under
    [parties] next to a list under [risk_score], and an empty list under
    [parties]. *)
Definition bad_score_response : string :=
  "{" ++ quoted "parties" ++ ": [" ++ quoted "Acme Corp" ++ ", "
      ++ quoted "Beta LLC" ++ "], " ++ quoted "risk_score" ++ ": [40]}".

Definition empty_list_response : string :=
  "{" ++ quoted "parties" ++ ": []}".

End CoerceSpec.

Module PiiSpec.

(** The labels that [mask_pii] replaces. *)
Definition maskable (ent : nat * nat * string) : bool :=
  (snd ent =? "PERSON") || (snd ent =? "ORG") || (snd ent =? "GPE").

(** The replacement that [mask_pii] records for an entity. *)
Definition bracket (ent : nat * nat * string) : Pii.replacement :=
  (fst (fst ent), snd (fst ent), "[" ++ snd ent ++ "]").

(** Spans in reading order from position [pos] on: each one is non-empty,
    starts at or after the end of the one before, and ends within [len]. *)
Fixpoint well_placed (pos : nat) (spans : list (nat * nat * string)) (len : nat)
  : Prop :=
  match spans with
  | [] => (pos <= len)%nat
  | span :: rest =>
      (pos <= fst (fst span))%nat /\ (fst (fst span) < snd (fst span))%nat
      /\ well_placed (snd (fst span)) rest len
  end.

(** [text] from [pos] on, with every span replaced by the string that comes
    with it. *)
Fixpoint splice (text : string) (pos : nat) (spans : list (nat * nat * string))
  : string :=
  match spans with
  | [] => PyStr.drop pos text
  | span :: rest =>
      PyStr.take (fst (fst span) - pos) (PyStr.drop pos text)
        ++ snd span ++ splice text (snd (fst span)) rest
  end.

(** One step of the second loop of [mask_pii]:
    [result[:start] + label + result[end:]]. *)
Definition replace_span (result : string) (r : Pii.replacement) : string :=
  let '(start, end_, label) := r in
  PyStr.take start result ++ label ++ PyStr.drop end_ result.

End PiiSpec.

Module IngestMoreSpec.

(** The texts that pages contribute: a page without text ([None] or the
    empty string) contributes nothing. *)
Fixpoint page_texts (pages : list (option string)) : list string :=
  match pages with
  | [] => []
  | None :: rest | Some EmptyString :: rest => page_texts rest
  | Some t :: rest => t :: page_texts rest
  end.

(** Every page text followed by a newline, one after the other. *)
Definition pages_text (pages : list (option string)) : string :=
  String.concat "" (map (fun t => t ++ PyStr.nl) (page_texts pages)).

(** The identifier of the chunk at position [i] of a file. *)
Definition chunk_id (file_name : string) (i : nat) : string :=
  file_name ++ "_" ++ str_of_int (Z.of_nat i).

End IngestMoreSpec.

Module TagMoreSpec.
Import Ingest TaggerSpec.

(** The tags that a returned tag string stands for. *)
Definition tags_in (tag_string : string) : list string :=
  PyStr.split "," tag_string.

Definition same_tags (a b : list string) : bool :=
  if list_eq_dec string_dec a b then true else false.

(** No string occurs twice in the list. *)
Fixpoint distinct (l : list string) : bool :=
  match l with
  | [] => true
  | x :: rest => negb (existsb (String.eqb x) rest) && distinct rest
  end.

(** The metadata of a chunk whose clause tags were computed from [text]. *)
Definition tagged_meta (src : string) (i : Z) (text : string) : metadata :=
  {| source := Some src; type_ := Some "contract"; chunk_index := Some i;
     clause_types := Some (detect_clause_types text) |}.

End TagMoreSpec.

Module CoerceMoreSpec.
Import ContractAnalyzer.

(** The value that lines 150 to 157 leave under [payment_terms]. *)
Definition repaired_payment (L : Lib) (pt : json) : json :=
  if truthy pt then
    match pt with
    | JStr s => JDict [("description", JStr s)]
    | JList items => JDict [("description", JStr (join_items L items))]
    | _ => pt
    end
  else pt.

(** A response whose [payment_terms] is a bare string and whose risk score
    is outside 0..100. *)
Definition payment_response : string :=
  "{" ++ CoerceSpec.quoted "doc_id" ++ ": " ++ CoerceSpec.quoted "MSA-7" ++ ", "
      ++ CoerceSpec.quoted "payment_terms" ++ ": "
      ++ CoerceSpec.quoted "Net 30 days" ++ ", "
      ++ CoerceSpec.quoted "risk_score" ++ ": 250}".

Definition payment_data : dict :=
  [ ("doc_id", JStr "MSA-7");
    ("payment_terms", JStr "Net 30 days");
    ("risk_score", JInt 250) ].

Definition payment_record : ContractSchema :=
  {| doc_id := Some "MSA-7";
     parties := None;
     effective_date := None;
     termination_clause := None;
     confidentiality_clause := None;
     governing_law := None;
     payment_terms :=
       Some {| description := Some "Net 30 days"; due_date := None |};
     risk_score := Some 250%Z;
     notes := None |}.

End CoerceMoreSpec.

Module RagMoreSpec.
Import RagService RagSpec.

(** The source of a passage, or the empty string when its metadata has no
    [source] key. *)
Definition source_or_empty (d : retrieved_doc) : string :=
  match source (metadata_of d) with
  | Some s => s
  | None => ""
  end.

(** The block that a passage contributes to the Q&A context. *)
Definition source_block (d : retrieved_doc) : string :=
  "Source: " ++ source_or_empty d ++ PyStr.nl ++ "Content: " ++ text d.

(** The prompt that the Q&A path builds from the retrieved passages. *)
Definition qa_prompt_of (question : string) (docs : list retrieved_doc) : string :=
  qa_prompt (PyStr.join (PyStr.nl ++ PyStr.nl)
               (map source_block (relevant_docs docs)))
            question.

(** Two passages of one source within the threshold, one of another beyond. *)
Definition leave_store : list (string * metadata * float) :=
  [ ("Annual leave is 25 days.", Reference.meta "leave.pdf" "general" 0, 0.4%float);
    ("Unused leave lapses in March.", Reference.meta "leave.pdf" "general" 1, 0.8%float);
    ("Travel must be approved.", Reference.meta "travel.pdf" "general" 0, 1.6%float) ].

(** A store with a passage whose metadata has no [source]. *)
Definition unsourced_store : list (string * metadata * float) :=
  [ ("Annual leave is 25 days.",
     {| source := None; type_ := Some "policy"; chunk_index := Some 0%Z;
        clause_types := Some "general" |}, 0.4%float) ].

End RagMoreSpec.

Module TextSpec.

(** The text starts, or ends, with a whitespace character. *)
Definition starts_with_space (s : string) : bool :=
  match s with
  | EmptyString => false
  | String c _ => PyStr.isspace c
  end.

Fixpoint ends_with_space (s : string) : bool :=
  match s with
  | EmptyString => false
  | String c EmptyString => PyStr.isspace c
  | String _ rest => ends_with_space rest
  end.

(** [generated_text.split("<|assistant|>")[-1].strip()], the expression that
    both [answer_question] and [analyze] apply to the generated text. *)
Definition after_marker (generated_text : string) : string :=
  PyStr.strip (PyStr.split_last "<|assistant|>" generated_text).

End TextSpec.

(* ================================================================== *)
(** * app/embeddings.py with its module-level model *)
(* ================================================================== *)

(** [Embeddings.embed_texts] above takes the encoder from the world.  Here
    the global [_model] that [get_embedding_model] fills on first use is
    explicit: a function returns its value, the new state of the global and
    the number of times it loaded the model. *)
Module LazyModel.

Definition encoder : Type := list string -> list embedding.

(** The global [_model]: [None] until the model is loaded. *)
Definition model_state : Type := option encoder.

(** [get_embedding_model()]; loading gives the world's encoder. *)
Definition get_embedding_model (W : World) (st : model_state)
  : encoder * model_state * nat :=
  match st with
  | None => (encode W, Some (encode W), 1%nat)
  | Some model => (model, st, 0%nat)
  end.

(** [embed_texts(texts)] *)
Definition embed_texts (W : World) (texts : list string) (st : model_state)
  : list embedding * model_state * nat :=
  match texts with
  | [] => ([], st, 0%nat)
  | _ =>
      let '(model, st', loads) := get_embedding_model W st in
      (model texts, st', loads)
  end.

(** One call of [embed_texts] per batch, in order. *)
Fixpoint embed_batches (W : World) (batches : list (list string))
    (st : model_state) : list (list embedding) * model_state * nat :=
  match batches with
  | [] => ([], st, 0%nat)
  | texts :: rest =>
      let '(vectors, st1, n1) := embed_texts W texts st in
      let '(others, st2, n2) := embed_batches W rest st1 in
      (vectors :: others, st2, (n1 + n2)%nat)
  end.

End LazyModel.

Module LazyModelSpec.

(** The call has some text to embed. *)
Definition nonempty_batch (texts : list string) : bool :=
  match texts with [] => false | _ => true end.

End LazyModelSpec.

Module ContextMoreSpec.
Import ContractAnalyzer.

(** The chunk goes to none of the eight buckets. *)
Definition in_no_bucket (meta : metadata) : bool :=
  negb (in_parties meta || in_effective_date meta || in_termination meta
        || in_governing_law meta || in_confidentiality meta
        || in_payment_terms meta || in_liability meta || in_general meta).

End ContextMoreSpec.

(* ================================================================== *)
(** * Theorems *)
(* ================================================================== *)

Import Py Schemas Eff.
Import TaggerSpec TraceSpec RagSpec ContextSpec IngestSpec CoerceSpec.

(** ** Strings *)

Section StringFacts.

Lemma prefix_spec (a s : string) :
  String.prefix a s = true <-> exists post, s = a ++ post.
Proof.
  revert a; induction s as [|c s IH]; intros [|d a]; simpl.
  - split; [exists ""; reflexivity | reflexivity].
  - split; [discriminate | intros [post H]; discriminate].
  - split; [intros _; eexists; reflexivity | reflexivity].
  - destruct (ascii_dec d c) as [->|Hne].
    + rewrite IH. split; intros [post H]; exists post.
      * now rewrite H.
      * now injection H.
    + split; [discriminate | intros [post H]; injection H; congruence].
Qed.

Lemma str_in_nil (sub : string) :
  PyStr.str_in sub "" = String.prefix sub "".
Proof. unfold PyStr.str_in. apply orb_false_r. Qed.

Lemma str_in_cons (sub : string) (c : ascii) (s : string) :
  PyStr.str_in sub (String c s)
  = String.prefix sub (String c s) || PyStr.str_in sub s.
Proof. reflexivity. Qed.

Lemma str_in_spec (sub s : string) :
  PyStr.str_in sub s = true <-> exists pre post, s = pre ++ sub ++ post.
Proof.
  induction s as [|c s IH].
  - rewrite str_in_nil, prefix_spec. split.
    + intros [post H]. exists "", post. exact H.
    + intros [pre [post H]]. destruct pre; simpl in H.
      * now exists post.
      * discriminate.
  - rewrite str_in_cons, orb_true_iff, prefix_spec, IH. split.
    + intros [[post H]|[pre [post H]]].
      * exists "", post. exact H.
      * exists (String c pre), post. simpl. now rewrite H.
    + intros [[|d pre] [post H]]; simpl in H.
      * left. now exists post.
      * right. injection H as _ H. now exists pre, post.
Qed.

Lemma lower_app (a b : string) :
  PyStr.lower (a ++ b) = PyStr.lower a ++ PyStr.lower b.
Proof. induction a as [|c a IH]; simpl; [reflexivity | now rewrite IH]. Qed.

Lemma lower_split (t a b : string) :
  PyStr.lower t = a ++ b ->
  exists a' b', t = a' ++ b' /\ PyStr.lower a' = a /\ PyStr.lower b' = b.
Proof.
  revert t; induction a as [|c a IH]; intros t H; simpl in H.
  - exists "", t. auto.
  - destruct t as [|d t]; simpl in H; [discriminate|].
    injection H as Hc Ht. destruct (IH _ Ht) as (a' & b' & -> & Ha & Hb).
    exists (String d a'), b'. simpl. rewrite Ha, Hc. auto.
Qed.

Lemma length_take (n : nat) (s : string) :
  String.length (PyStr.take n s) = Nat.min n (String.length s).
Proof.
  revert s; induction n as [|n IH]; intros [|c s]; simpl; auto.
Qed.

Lemma take_drop (n : nat) (s : string) :
  PyStr.take n s ++ PyStr.drop n s = s.
Proof.
  revert s; induction n as [|n IH]; intros [|c s]; simpl; auto.
  now rewrite IH.
Qed.

Lemma take_all (n : nat) (s : string) :
  (String.length s <= n)%nat -> PyStr.take n s = s.
Proof.
  revert s; induction n as [|n IH]; intros [|c s] H; simpl in *; auto; try lia.
  rewrite IH; [reflexivity | lia].
Qed.

End StringFacts.

(** ** The clause tagger ([detect_clause_types]) *)

Module TaggerProofs.
Import Ingest.
Import TaggerSpec.

Lemma detect_loop_acc (table : list (string * list string))
    (text_lower : string) (acc : list string) :
  fold_left
    (fun (detected : list string) (item : string * list string) =>
       if any_keyword (snd item) text_lower
       then (detected ++ [fst item])%list else detected) table acc
  = (acc ++ map fst (filter (fun item => any_keyword (snd item) text_lower) table))%list.
Proof.
  revert acc; induction table as [|item table IH]; intros acc; simpl.
  - now rewrite app_nil_r.
  - rewrite IH. destruct (any_keyword (snd item) text_lower); simpl.
    + now rewrite <- app_assoc.
    + reflexivity.
Qed.

Lemma detect_loop_filter table text_lower :
  detect_loop table text_lower
  = map fst (filter (fun item => any_keyword (snd item) text_lower) table).
Proof. unfold detect_loop. now rewrite detect_loop_acc. Qed.

Lemma keywords_lower :
  forallb (fun item => forallb (fun kw => PyStr.lower kw =? kw) (snd item))
          CLAUSE_KEYWORDS = true.
Proof. vm_compute. reflexivity. Qed.

Lemma keyword_lower clause keywords kw :
  In (clause, keywords) CLAUSE_KEYWORDS -> In kw keywords -> PyStr.lower kw = kw.
Proof.
  intros Hc Hk. pose proof keywords_lower as H.
  rewrite forallb_forall in H. specialize (H _ Hc). simpl in H.
  rewrite forallb_forall in H. apply String.eqb_eq. now apply H.
Qed.

Lemma occurs_ci_lower kw text :
  PyStr.lower kw = kw ->
  (PyStr.str_in kw (PyStr.lower text) = true <-> occurs_ci kw text).
Proof.
  intros Hkw. rewrite str_in_spec. unfold occurs_ci. rewrite Hkw. split.
  - intros (pre & post & H).
    apply lower_split in H as (pre' & rest & -> & _ & Hrest).
    apply lower_split in Hrest as (mid & post' & -> & Hmid & _).
    now exists pre', mid, post'.
  - intros (pre & mid & post & -> & Hmid).
    exists (PyStr.lower pre), (PyStr.lower post).
    now rewrite !lower_app, Hmid.
Qed.

Lemma detected_iff text clause :
  In clause (detected text) <-> triggered clause text.
Proof.
  unfold detected. rewrite detect_loop_filter, in_map_iff. split.
  - intros ([c kws] & <- & Hin). apply filter_In in Hin as [Hin Hany].
    cbn [fst snd] in *. unfold any_keyword in Hany. apply existsb_exists in Hany as (kw & Hkw & Hocc).
    exists kws, kw. split; [assumption|]. split; [assumption|].
    apply occurs_ci_lower; [eapply keyword_lower; eauto | assumption].
  - intros (kws & kw & Hin & Hkw & Hocc).
    exists (clause, kws). split; [reflexivity|]. apply filter_In. split; [assumption|].
    cbn [fst snd]. unfold any_keyword. apply existsb_exists. exists kw. split; [assumption|].
    apply occurs_ci_lower; [eapply keyword_lower; eauto | assumption].
Qed.

Lemma filter_sublists {A : Type} (f : A -> bool) (l : list A) :
  In (filter f l) (sublists l).
Proof.
  induction l as [|x l IH]; simpl; [auto|].
  apply in_or_app. destruct (f x); [left; now apply in_map | now right].
Qed.

(** On every possible outcome of the loop, the substring test that the
    analyzer applies to the returned string agrees with membership. *)
Lemma render_membership :
  forallb
    (fun tags =>
       forallb
         (fun clause =>
            Bool.eqb (PyStr.str_in clause (render tags))
                     (existsb (String.eqb clause) tags))
         clause_names)
    (map (map fst) (sublists CLAUSE_KEYWORDS)) = true.
Proof. vm_compute. reflexivity. Qed.

Lemma str_in_render text clause :
  In clause clause_names ->
  (PyStr.str_in clause (detect_clause_types text) = true
   <-> In clause (detected text)).
Proof.
  intros Hc.
  assert (Hr : detect_clause_types text = render (detected text)).
  { unfold detect_clause_types, render. now destruct (detected text). }
  rewrite Hr. pose proof render_membership as H.
  rewrite forallb_forall in H.
  specialize (H (detected text)).
  assert (Hin : In (detected text) (map (map fst) (sublists CLAUSE_KEYWORDS))).
  { unfold detected. rewrite detect_loop_filter. apply in_map, filter_sublists. }
  specialize (H Hin). rewrite forallb_forall in H. specialize (H _ Hc).
  apply Bool.eqb_prop in H. rewrite H, existsb_exists. split.
  - intros (x & Hx & Heq). apply String.eqb_eq in Heq. now subst.
  - intros Hd. exists clause. split; [assumption | apply String.eqb_refl].
Qed.

(** C8.  For every text, a clause type is assigned exactly when one of its
    trigger phrases occurs in the text up to (ASCII) letter case, each type
    on its own: this holds for the list the loop builds and for the
    substring test applied to the returned comma-joined string.  When no
    type is triggered the function returns exactly ["general"], and a text
    that triggers both termination and parties carries both labels. *)
Theorem detect_clause_types_spec (text : string) :
  (forall clause, In clause (detected text) <-> triggered clause text)
  /\ (forall clause, In clause clause_names ->
        (PyStr.str_in clause (detect_clause_types text) = true
         <-> triggered clause text))
  /\ ((forall clause, ~ triggered clause text) ->
        detect_clause_types text = "general")
  /\ (triggered "termination" text -> triggered "parties" text ->
        In "termination" (detected text) /\ In "parties" (detected text)
        /\ PyStr.str_in "termination" (detect_clause_types text) = true
        /\ PyStr.str_in "parties" (detect_clause_types text) = true).
Proof.
  split; [intros clause; apply detected_iff|].
  split.
  { intros clause Hc. rewrite str_in_render by assumption. apply detected_iff. }
  split.
  { intros Hnone. unfold detect_clause_types.
    destruct (detected text) as [|c tags] eqn:E; [reflexivity|].
    exfalso. apply (Hnone c). apply detected_iff. rewrite E. now left. }
  intros Ht Hp.
  assert (Ht' : In "termination" (detected text)) by now apply detected_iff.
  assert (Hp' : In "parties" (detected text)) by now apply detected_iff.
  repeat split; try assumption.
  - apply str_in_render; [vm_compute; tauto | assumption].
  - apply str_in_render; [vm_compute; tauto | assumption].
Qed.

End TaggerProofs.

(** ** Computations and their call traces *)

Section EffFacts.
Import TraceSpec.

Lemma for_each_pure {A B : Type} (f : A -> M B) (g : A -> B) (c : A -> list call)
    (xs : list A) :
  (forall x, In x xs -> f x = (Returned (g x), c x)) ->
  for_each f xs = (Returned (map g xs), flat_map c xs).
Proof.
  induction xs as [|x xs IH]; intros H; simpl; [reflexivity|].
  rewrite (H x) by now left. simpl.
  rewrite IH by (intros y Hy; apply H; now right). simpl.
  now rewrite app_nil_r.
Qed.

Lemma for_each_calls_nil {A B : Type} (f : A -> M B) (xs : list A) :
  (forall x, calls (f x) = []) -> calls (for_each f xs) = [].
Proof.
  intros H. induction xs as [|x xs IH]; simpl; [reflexivity|].
  specialize (H x). unfold calls in *.
  destruct (f x) as [[y|e] t]; simpl in *; subst; [|reflexivity].
  destruct (for_each f xs) as [[ys|e] t]; simpl in *; subst; reflexivity.
Qed.

Lemma index_calls {A : Type} (xs : list A) (i : nat) : calls (index xs i) = [].
Proof. unfold index. now destruct (nth_error xs i). Qed.

Lemma bind_calls_nil {A B : Type} (m : M A) (k : A -> M B) :
  calls m = [] -> (forall a, calls (k a) = []) -> calls (bind m k) = [].
Proof.
  intros Hm Hk. unfold calls in *. destruct m as [[a|e] t]; simpl in *; subst.
  - specialize (Hk a). destruct (k a) as [r t]. simpl in *. now subst.
  - reflexivity.
Qed.

Lemma all_calls_nil {A : Type} (ok : call -> bool) (m : M A) :
  calls m = [] -> all_calls ok m.
Proof. unfold all_calls. now intros ->. Qed.

Lemma all_calls_bind {A B : Type} (ok : call -> bool) (m : M A) (k : A -> M B) :
  all_calls ok m -> (forall a, all_calls ok (k a)) -> all_calls ok (bind m k).
Proof.
  unfold all_calls, calls. intros Hm Hk. destruct m as [[a|e] t]; simpl in *.
  - specialize (Hk a). destruct (k a) as [r t2]. simpl in *.
    rewrite forallb_app. now rewrite Hm, Hk.
  - assumption.
Qed.

End EffFacts.

(** ** Retrieval threshold and the Q&A path *)

Module RagProofs.
Import RagService.
Import RagSpec.

Lemma retrieve_no_pipe (W : World) (query : string) (top_k : nat) :
  all_calls (fun c => negb (is_pipe_call c)) (retrieve W query top_k).
Proof.
  unfold retrieve.
  apply all_calls_bind; [reflexivity | intros embedded].
  apply all_calls_bind; [apply all_calls_nil, index_calls | intros qe].
  apply all_calls_bind; [reflexivity | intros results].
  destruct (documents results) as [|first_docs others]; [reflexivity|].
  apply all_calls_nil, for_each_calls_nil. intros id.
  repeat (apply bind_calls_nil; [apply index_calls | intros ?]).
  reflexivity.
Qed.

Lemma threshold_spec :
  Prim2SF DISTANCE_THRESHOLD = S754_finite false 4503599627370496 (-52).
Proof. vm_compute. reflexivity. Qed.

Lemma at_or_above_not_below (distance : float) :
  PrimFloat.leb DISTANCE_THRESHOLD distance = true ->
  PrimFloat.ltb distance DISTANCE_THRESHOLD = false.
Proof.
  rewrite leb_spec, ltb_spec. unfold SFleb, SFltb. rewrite threshold_spec.
  generalize 4503599627370496%positive as m0. generalize (-52)%Z as e0.
  intros e0 m0.
  destruct (Prim2SF distance) as [sg|sg| |sg m e]; cbn [SFcompare].
  - destruct sg; intros H; try discriminate H; reflexivity.
  - destruct sg; intros H; try discriminate H; reflexivity.
  - intros H; discriminate H.
  - destruct sg; [intros H; discriminate H|].
    rewrite (Z.compare_antisym e e0).
    destruct (e ?= e0)%Z; cbn [CompOpp];
      try (intros H; (discriminate H || reflexivity)).
    fold (Pos.compare m0 m). fold (Pos.compare m m0).
    rewrite (Pos.compare_antisym m m0).
    destruct (m ?= m0)%positive; cbn [CompOpp]; intros H;
      (discriminate H || reflexivity).
Qed.

(** C5.  A retrieved passage is kept exactly when its distance is strictly
    below [DISTANCE_THRESHOLD] (1.0): a passage at or above the threshold is
    dropped altogether, the kept ones stay in retrieval order and give the
    answer's similarity scores; with distances 0.2, 0.9 and 1.3 exactly the
    first two are kept. *)
Theorem relevant_docs_threshold :
  DISTANCE_THRESHOLD = 1.0%float
  /\ (forall docs d,
        In d (relevant_docs docs)
        <-> In d docs /\ PrimFloat.ltb (score d) DISTANCE_THRESHOLD = true)
  /\ (forall docs d,
        PrimFloat.leb DISTANCE_THRESHOLD (score d) = true ->
        ~ In d (relevant_docs docs))
  /\ (forall before d after,
        relevant_docs (before ++ d :: after)
        = (relevant_docs before
           ++ (if PrimFloat.ltb (score d) DISTANCE_THRESHOLD then [d] else [])
           ++ relevant_docs after)%list)
  /\ (forall L W question docs r,
        result (answer_from L W question docs) = Returned r ->
        similarity_scores r = map score (relevant_docs docs))
  /\ (forall t1 m1 t2 m2 t3 m3,
        let d1 := {| text := t1; metadata_of := m1; score := 0.2%float |} in
        let d2 := {| text := t2; metadata_of := m2; score := 0.9%float |} in
        let d3 := {| text := t3; metadata_of := m3; score := 1.3%float |} in
        relevant_docs [d1; d2; d3] = [d1; d2]
        /\ List.length (relevant_docs [d1; d2; d3]) = 2%nat).
Proof.
  split; [reflexivity|]. split.
  { intros docs d. unfold relevant_docs. apply filter_In. }
  split.
  { intros docs d Hge Hin. unfold relevant_docs in Hin.
    apply filter_In in Hin as [_ Hlt]. unfold is_relevant in Hlt.
    rewrite (at_or_above_not_below _ Hge) in Hlt. discriminate. }
  split.
  { intros before d after. unfold relevant_docs.
    rewrite filter_app. simpl. unfold is_relevant at 2.
    now destruct (PrimFloat.ltb (score d) DISTANCE_THRESHOLD). }
  split.
  { intros L W question docs r. unfold answer_from.
    destruct (relevant_docs docs) as [|d0 ds] eqn:E.
    - cbn. intros H. now injection H as <-.
    - unfold bind, result.
      destruct (for_each _ (d0 :: ds)) as [[blocks|e] t1]; [|discriminate].
      destruct (pipe W) as [generate|]; cbn [perform ret fst snd];
        destruct (for_each source_of (d0 :: ds)) as [[sources|e] t2];
        cbn; intros H; try discriminate H; now injection H as <-. }
  intros. split; reflexivity.
Qed.

(** C4.  When the threshold filter keeps no passage, [answer_question]
    returns the fixed record (answer "No relevant info found.", no
    citations, no scores) and its trace holds no call of the generation
    pipeline. *)
Theorem answer_question_short_circuit (L : Lib) (W : World) (question : string)
    (docs : list retrieved_doc) :
  result (retrieve W question 3) = Returned docs ->
  relevant_docs docs = [] ->
  result (answer_question L W question) = Returned no_relevant_info
  /\ (forall prompt n,
        ~ In (CallPipe prompt n) (calls (answer_question L W question))).
Proof.
  intros Hr Hnone. pose proof (retrieve_no_pipe W question 3) as Hp.
  unfold all_calls, answer_question, bind, result, calls in *.
  destruct (retrieve W question 3) as [o t]. simpl in Hr, Hp. subst o.
  unfold answer_from. rewrite Hnone. simpl. split; [reflexivity|].
  intros prompt n Hin. rewrite app_nil_r in Hin.
  rewrite forallb_forall in Hp. specialize (Hp _ Hin). discriminate.
Qed.

Lemma answer_question_short_circuit_witness :
  result (answer_question Reference.lib
            (Reference.world far_store (Some "unused")) "What is the notice period?")
  = Returned no_relevant_info
  /\ (forall prompt n,
        ~ In (CallPipe prompt n)
             (calls (answer_question Reference.lib
                       (Reference.world far_store (Some "unused"))
                       "What is the notice period?"))).
Proof.
  eapply answer_question_short_circuit; vm_compute; reflexivity.
Defined.

End RagProofs.

(** ** Smart-context assembly *)

Module ContextProofs.
Import ContractAnalyzer.
Import ContextSpec.

Lemma append_if_members (p : metadata -> bool) (bucket : list string)
    (doc : string) (meta : metadata) (rest : list (string * metadata)) :
  (append_if (p meta) bucket doc ++ members p rest)%list
  = (bucket ++ members p ((doc, meta) :: rest))%list.
Proof.
  unfold append_if, members. simpl. destruct (p meta); simpl.
  - now rewrite <- app_assoc.
  - reflexivity.
Qed.

Lemma fold_distribute (dms : list (string * metadata)) (rs : relevant_sections) :
  let rs' := fold_left distribute dms rs in
  sec_parties rs' = (sec_parties rs ++ members in_parties dms)%list
  /\ sec_effective_date rs'
     = (sec_effective_date rs ++ members in_effective_date dms)%list
  /\ sec_termination rs' = (sec_termination rs ++ members in_termination dms)%list
  /\ sec_governing_law rs'
     = (sec_governing_law rs ++ members in_governing_law dms)%list
  /\ sec_confidentiality rs'
     = (sec_confidentiality rs ++ members in_confidentiality dms)%list
  /\ sec_payment_terms rs'
     = (sec_payment_terms rs ++ members in_payment_terms dms)%list
  /\ sec_liability rs' = (sec_liability rs ++ members in_liability dms)%list
  /\ sec_general rs' = (sec_general rs ++ members in_general dms)%list.
Proof.
  revert rs; induction dms as [|[doc meta] dms IH]; intros rs; cbn zeta.
  - unfold members; simpl. now rewrite !app_nil_r.
  - change (fold_left distribute ((doc, meta) :: dms) rs)
      with (fold_left distribute dms (distribute rs (doc, meta))).
    specialize (IH (distribute rs (doc, meta))). cbn zeta in IH.
    destruct IH as (H1 & H2 & H3 & H4 & H5 & H6 & H7 & H8).
    rewrite H1, H2, H3, H4, H5, H6, H7, H8. cbn [distribute sec_parties
      sec_effective_date sec_termination sec_governing_law sec_confidentiality
      sec_payment_terms sec_liability sec_general].
    now rewrite !append_if_members.
Qed.


Lemma build_sections_members (docs : list string) (metas : list metadata) :
  let rs := build_sections docs metas in
  let dms := combine docs metas in
  sec_parties rs = members in_parties dms
  /\ sec_effective_date rs = members in_effective_date dms
  /\ sec_termination rs = members in_termination dms
  /\ sec_governing_law rs = members in_governing_law dms
  /\ sec_confidentiality rs = members in_confidentiality dms
  /\ sec_payment_terms rs = members in_payment_terms dms
  /\ sec_liability rs = members in_liability dms
  /\ sec_general rs = members in_general dms.
Proof. exact (fold_distribute (combine docs metas) empty_sections). Qed.






Lemma context_parts_layout (docs : list string) (metas : list metadata) :
  context_parts (build_sections docs metas)
  = map (fun row =>
           labelled (fst (fst row))
             (PyStr.join chunk_separator
                (firstn (snd row) (members (snd (fst row)) (combine docs metas)))))
        layout.
Proof.
  destruct (build_sections_members docs metas)
    as (H1 & H2 & H3 & H4 & _ & H6 & H7 & H8).
  unfold context_parts, get_top_chunks.
  rewrite H1, H2, H3, H4, H6, H7, H8. reflexivity.
Qed.

(** C6 (as amended).  Each of the seven buckets general, parties,
    effective_date (with renewal), termination, governing_law,
    payment_terms and liability (with restrictive covenants and licence/IP)
    is rendered as a section [--- LABEL ---] followed by a newline and its
    first chunks, whether or not the bucket is empty, and the seven sections
    are joined by a blank line in the order INTRO, PARTIES, DATES,
    TERMINATION, LAW, PAYMENT, RISK FACTORS. *)
Theorem full_context_sections (docs : list string) (metas : list metadata) :
  let dms := combine docs metas in
  let body p n := PyStr.join chunk_separator (firstn n (members p dms)) in
  full_context (build_sections docs metas)
  = PyStr.join section_separator
      [ labelled "INTRO" (body in_general 3%nat);
        labelled "PARTIES" (body in_parties 2%nat);
        labelled "DATES" (body in_effective_date 2%nat);
        labelled "TERMINATION" (body in_termination 2%nat);
        labelled "LAW" (body in_governing_law 2%nat);
        labelled "PAYMENT" (body in_payment_terms 2%nat);
        labelled "RISK FACTORS (Liability/IP/Restrictions)" (body in_liability 3%nat) ]
  /\ List.length (context_parts (build_sections docs metas)) = 7%nat
  /\ (forall label p n,
        In (label, p, n) layout ->
        members p dms = [] ->
        In (labelled label "") (context_parts (build_sections docs metas))).
Proof.
  cbn zeta. split; [|split].
  - unfold full_context. now rewrite context_parts_layout.
  - reflexivity.
  - intros label p n Hin Hempty. rewrite context_parts_layout.
    apply in_map_iff. exists (label, p, n). split; [|assumption].
    cbn [fst snd]. rewrite Hempty. now destruct n.
Qed.


(** C3.  For every chunk set the context given to the extraction prompt is
    the prefix of the assembled text of length at most 6000: it is never
    longer than the budget, it has exactly 6000 characters whenever the
    assembled text has at least that many (wherever the sections end), and
    it is the text between the head and the tail of every prompt that
    [analyze] sends to the pipeline. *)
Theorem context_text_within_budget (docs : list string) (metas : list metadata) :
  let rs := build_sections docs metas in
  CONTEXT_BUDGET = 6000%nat
  /\ (String.length (context_text rs) <= 6000)%nat
  /\ (exists cut_off, full_context rs = context_text rs ++ cut_off)
  /\ ((6000 <= String.length (full_context rs))%nat ->
        String.length (context_text rs) = 6000%nat)
  /\ ((String.length (full_context rs) <= 6000)%nat ->
        context_text rs = full_context rs)
  /\ (forall L W file_name prompt n,
        collection_get W file_name = (docs, metas) ->
        In (CallPipe prompt n) (calls (analyze L W file_name)) ->
        prompt = prompt_head file_name ++ context_text rs ++ prompt_tail).
Proof.
  cbn zeta. set (rs := build_sections docs metas).
  split; [reflexivity|]. unfold context_text.
  split; [rewrite length_take; apply Nat.le_min_l|].
  split; [exists (PyStr.drop CONTEXT_BUDGET (full_context rs));
          now rewrite take_drop|].
  split; [intros H; rewrite length_take; now apply Nat.min_l|].
  split; [intros H; now apply take_all|].
  intros L W file_name prompt n Hget Hin.
  unfold analyze, bind, perform, calls in Hin. rewrite Hget in Hin.
  destruct docs as [|doc docs].
  - simpl in Hin. destruct Hin as [H|[]]; discriminate.
  - destruct (pipe W) as [generate|]; simpl in Hin.
    + destruct Hin as [H|[H|[]]]; [discriminate|].
      injection H as <- _. reflexivity.
    + destruct Hin as [H|[]]; discriminate.
Qed.

Lemma context_cut_inside_section :
  String.length (full_context (build_sections long_docs long_metas)) = 7153%nat
  /\ context_text (build_sections long_docs long_metas)
     = "--- INTRO ---" ++ PyStr.nl ++ filler "x" 5986.
Proof. split; vm_compute; reflexivity. Qed.

(** C6 as first stated fails: here the confidentiality bucket holds one
    chunk, yet that chunk occurs nowhere in the assembled context, and the
    parties bucket is empty, yet its section is rendered. *)
Lemma confidentiality_bucket_not_rendered :
  sec_confidentiality (build_sections secret_docs secret_metas) = secret_docs
  /\ PyStr.str_in "Each party shall keep the terms secret."
       (full_context (build_sections secret_docs secret_metas)) = false
  /\ sec_parties (build_sections secret_docs secret_metas) = []
  /\ In ("--- PARTIES ---" ++ PyStr.nl)
        (context_parts (build_sections secret_docs secret_metas)).
Proof. vm_compute. repeat split; try reflexivity. tauto. Qed.


End ContextProofs.

(** ** The ingestion loop *)

Module IngestProofs.
Import Ingest.
Import IngestSpec.

Lemma flat_map_singleton {A B : Type} (f : A -> B) (xs : list A) :
  flat_map (fun x => [f x]) xs = map f xs.
Proof. induction xs as [|x xs IH]; simpl; [reflexivity | now rewrite IH]. Qed.

Lemma map_snd_enumerate {A : Type} (xs : list A) :
  map snd (enumerate xs) = xs.
Proof.
  unfold enumerate. generalize 0%nat.
  induction xs as [|x xs IH]; intros start; simpl; [reflexivity|].
  now rewrite IH.
Qed.

Lemma ingest_file_run (W : World) (file_path : string) :
  ingest_file W file_path
  = (Returned tt,
     let raw_text := extract_text_from_pdf W file_path in
     if raw_text =? "" then [ CallExtractText file_path ]
     else match split_text W raw_text with
          | [] => [ CallExtractText file_path; CallSplitText raw_text ]
          | raw_chunks => document_trace W file_path raw_text raw_chunks
          end).
Proof.
  unfold ingest_file. cbn zeta.
  set (raw_text := extract_text_from_pdf W file_path).
  unfold perform at 1. unfold bind at 1.
  destruct (raw_text =? "") eqn:Eraw; [reflexivity|].
  unfold perform at 1. unfold bind at 1.
  destruct (split_text W raw_text) as [|c0 cs] eqn:Esplit; [reflexivity|].
  set (raw_chunks := c0 :: cs).
  rewrite (for_each_pure _ (Pii.mask_pii W) (fun chunk => [CallMaskPii chunk]))
    by reflexivity.
  rewrite flat_map_singleton. unfold bind at 1. unfold perform at 1.
  unfold bind at 1.
  set (chunks := map (Pii.mask_pii W) raw_chunks).
  rewrite (for_each_pure _
             (chunk_metadata (PyStr.split_last "/" file_path)
                (if PyStr.str_in "policies" file_path then "policy" else "contract"))
             (fun ic => [CallDetectClauseTypes (snd ic)]))
    by reflexivity.
  unfold bind, perform. unfold document_trace. cbn zeta. fold chunks.
  f_equal. cbn [app]. do 2 f_equal. f_equal. f_equal.
  rewrite flat_map_singleton.
  assert (Hsnd : map (fun ic : nat * string => CallDetectClauseTypes (snd ic))
                     (enumerate chunks) = map CallDetectClauseTypes chunks).
  { rewrite <- (map_map snd CallDetectClauseTypes). f_equal.
    apply map_snd_enumerate. }
  rewrite Hsnd. reflexivity.
Qed.

Lemma precedes_app (a b : call -> bool) (l1 l2 : list call) :
  forallb (fun c => negb (b c)) l1 = true ->
  forallb (fun c => negb (a c)) l2 = true ->
  precedes a b (l1 ++ l2).
Proof.
  intros Hb Ha i j ca cb Hi Hca Hj Hcb.
  rewrite forallb_forall in Ha, Hb.
  destruct (Nat.lt_ge_cases i (List.length l1)) as [Hi1|Hi1].
  - destruct (Nat.lt_ge_cases j (List.length l1)) as [Hj1|Hj1]; [|lia].
    rewrite nth_error_app1 in Hj by assumption.
    apply nth_error_In, Hb in Hj. rewrite Hcb in Hj. discriminate.
  - rewrite nth_error_app2 in Hi by assumption.
    apply nth_error_In, Ha in Hi. rewrite Hca in Hi. discriminate.
Qed.

Lemma precedes_none (a b : call -> bool) (trace : list call) :
  forallb (fun c => negb (a c)) trace = true -> precedes a b trace.
Proof.
  intros Ha i j ca cb Hi Hca _ _. rewrite forallb_forall in Ha.
  apply nth_error_In, Ha in Hi. rewrite Hca in Hi. discriminate.
Qed.

Lemma forallb_map_const {A : Type} (f : A -> call) (ok : call -> bool)
    (xs : list A) :
  (forall x, ok (f x) = true) -> forallb ok (map f xs) = true.
Proof.
  intros H. apply forallb_forall. intros c Hc.
  apply in_map_iff in Hc as (x & <- & _). apply H.
Qed.

Lemma document_trace_order (W : World) (file_path raw_text : string)
    (raw_chunks : list string) :
  let trace := document_trace W file_path raw_text raw_chunks in
  precedes is_mask is_embed trace
  /\ precedes is_mask is_tag trace
  /\ precedes is_embed is_tag trace.
Proof.
  cbn zeta. unfold document_trace. cbn zeta.
  set (chunks := map (Pii.mask_pii W) raw_chunks).
  split; [|split].
  - rewrite (app_assoc _ (map CallMaskPii raw_chunks)).
    apply precedes_app.
    + rewrite forallb_app. cbn [forallb is_embed negb andb].
      now apply forallb_map_const.
    + cbn [forallb app is_mask negb andb]. rewrite forallb_app.
      cbn [forallb is_mask negb andb].
      rewrite forallb_map_const; reflexivity.
  - rewrite (app_assoc _ (map CallMaskPii raw_chunks)).
    rewrite (app_assoc _ [CallEmbedTexts chunks]).
    apply precedes_app.
    + rewrite !forallb_app. cbn [forallb is_tag negb andb].
      rewrite forallb_map_const; reflexivity.
    + rewrite forallb_app. cbn [forallb is_mask negb andb].
      rewrite forallb_map_const; reflexivity.
  - rewrite (app_assoc _ (map CallMaskPii raw_chunks)).
    rewrite (app_assoc _ [CallEmbedTexts chunks]).
    apply precedes_app.
    + rewrite !forallb_app. cbn [forallb is_tag negb andb].
      rewrite forallb_map_const; reflexivity.
    + rewrite forallb_app. cbn [forallb is_embed negb andb].
      rewrite forallb_map_const; reflexivity.
Qed.

Lemma document_trace_steps (W : World) (file_path raw_text : string)
    (raw_chunks : list string) :
  map step_name (document_trace W file_path raw_text raw_chunks)
  = ([ "extract"; "chunk" ]
       ++ repeat "mask" (List.length raw_chunks)
       ++ [ "embed" ]
       ++ repeat "tag" (List.length raw_chunks)
       ++ [ "upsert" ])%list.
Proof.
  unfold document_trace. cbn zeta. rewrite !map_app, !map_map.
  cbn [map step_name]. rewrite !map_const, ?length_map. reflexivity.
Qed.

(** C9 (as amended).  Every document is processed in the step order
    extract, chunk, mask, embed, tag, upsert.  PII masking of every chunk
    comes before the embedding call and before every tagging call, the
    embeddings are computed from the masked chunks before the tagging loop
    starts, and tagging is applied to the masked chunk texts. *)
Theorem ingest_step_order (W : World) :
  calls (ingest_documents W)
  = flat_map (fun file_path => calls (ingest_file W file_path))
      (glob_pdfs W "policies" ++ glob_pdfs W "contracts")
  /\ forall file_path,
       let raw_text := extract_text_from_pdf W file_path in
       let raw_chunks := split_text W raw_text in
       let trace := calls (ingest_file W file_path) in
       result (ingest_file W file_path) = Returned tt
       /\ (raw_text <> "" -> raw_chunks <> [] ->
             trace = document_trace W file_path raw_text raw_chunks
             /\ map step_name trace
                = ([ "extract"; "chunk" ]
                     ++ repeat "mask" (List.length raw_chunks)
                     ++ [ "embed" ]
                     ++ repeat "tag" (List.length raw_chunks)
                     ++ [ "upsert" ])%list)
       /\ precedes is_mask is_embed trace
       /\ precedes is_mask is_tag trace
       /\ precedes is_embed is_tag trace
       /\ (forall texts, In (CallEmbedTexts texts) trace ->
             texts = map (Pii.mask_pii W) raw_chunks)
       /\ (forall chunk, In (CallDetectClauseTypes chunk) trace ->
             exists raw, In raw raw_chunks /\ chunk = Pii.mask_pii W raw).
Proof.
  split.
  - unfold ingest_documents.
    rewrite (for_each_pure _ (fun _ => tt)
               (fun file_path => calls (ingest_file W file_path))).
    + unfold bind, ret, calls. cbn [snd]. now rewrite !app_nil_r.
    + intros file_path _. now rewrite ingest_file_run.
  - intros file_path. cbn zeta. rewrite ingest_file_run. unfold result, calls.
    cbn [fst snd]. cbn zeta.
    set (raw_text := extract_text_from_pdf W file_path).
    split; [reflexivity|].
    destruct (raw_text =? "") eqn:Eraw.
    { apply String.eqb_eq in Eraw.
      split; [intros H; contradiction|].
      repeat split; try (apply precedes_none; reflexivity).
      - intros texts [H|[]]; discriminate.
      - intros chunk [H|[]]; discriminate. }
    destruct (split_text W raw_text) as [|c0 cs] eqn:Esplit.
    { split; [intros _ H; contradiction|].
      repeat split; try (apply precedes_none; reflexivity).
      - intros texts [H|[H|[]]]; discriminate.
      - intros chunk [H|[H|[]]]; discriminate. }
    split; [intros _ _; split; [reflexivity | apply document_trace_steps]|].
    destruct (document_trace_order W file_path raw_text (c0 :: cs))
      as (H1 & H2 & H3).
    split; [exact H1|]. split; [exact H2|]. split; [exact H3|].
    unfold document_trace. cbn zeta. split.
    + intros texts Hin.
      cbn [app In] in Hin. destruct Hin as [H|[H|Hin]]; try discriminate.
      apply in_app_or in Hin as [Hin|Hin].
      { apply in_map_iff in Hin as (x & Hx & _). discriminate. }
      cbn [app In] in Hin. destruct Hin as [H|Hin]; [now injection H|].
      apply in_app_or in Hin as [Hin|[H|[]]]; [|discriminate].
      apply in_map_iff in Hin as (x & Hx & _). discriminate.
    + intros chunk Hin.
      cbn [app In] in Hin. destruct Hin as [H|[H|Hin]]; try discriminate.
      apply in_app_or in Hin as [Hin|Hin].
      { apply in_map_iff in Hin as (x & Hx & _). discriminate. }
      cbn [app In] in Hin. destruct Hin as [H|Hin]; [discriminate|].
      apply in_app_or in Hin as [Hin|[H|[]]]; [|discriminate].
      apply in_map_iff in Hin as (x & Hx & Hin). injection Hx as <-.
      apply in_map_iff in Hin as (raw & <- & Hraw). now exists raw.
Qed.

(** C9 as first stated fails: for the one-chunk contract the steps run in
    the order extract, chunk, mask, embed, tag, upsert, so the tagging call
    does not come before the embedding call. *)
Lemma tagging_after_embedding :
  map step_name (calls (ingest_documents Reference.ingest_world))
  = [ "extract"; "chunk"; "mask"; "embed"; "tag"; "upsert" ]
  /\ ~ precedes is_tag is_embed (calls (ingest_documents Reference.ingest_world)).
Proof.
  split; [vm_compute; reflexivity|].
  intros H. unfold precedes in H.
  remember (calls (ingest_documents Reference.ingest_world)) as trace eqn:E.
  vm_compute in E. subst trace.
  specialize (H 4%nat 3%nat _ _ eq_refl eq_refl eq_refl eq_refl). lia.
Qed.

End IngestProofs.

(** ** Response coercion and the degraded paths of [analyze] *)

Module CoerceProofs.
Import ContractAnalyzer.
Import CoerceSpec.


Lemma init_raises_validation (L : Lib) (data : dict) (e : exn) :
  ContractSchema_init L data = Raised e -> exn_cls e = ValidationError.
Proof.
  unfold ContractSchema_init.
  repeat match goal with
         | |- context [match ?o with Some _ => _ | None => _ end] =>
             destruct o
         end; intros H; try discriminate; now injection H as <-.
Qed.

Lemma analyze_run (L : Lib) (W : World) (file_name : string) :
  result (analyze L W file_name)
  = match fst (collection_get W file_name) with
    | [] => Returned (ContractSchema_stub file_name "No content found.")
    | _ =>
        match parsed_response W file_name with
        | Some response => coerce_response L response file_name
        | None => Returned (ContractSchema_stub file_name "LLM not loaded.")
        end
    end.
Proof.
  unfold analyze, parsed_response, bind, perform, result.
  destruct (collection_get W file_name) as [[|doc docs] metas]; [reflexivity|].
  cbn [fst]. destruct (pipe W) as [generate|]; reflexivity.
Qed.


(** C10.  On each degraded path of [analyze] (no chunk stored for the file
    name, generation pipeline not loaded, JSON parse failure, validation
    failure after repair, parsed value that is not an object) the record
    returned has [doc_id] equal to the file name, the path's note in
    [notes], and every other field empty. *)
Theorem degraded_paths_return_stub (L : Lib) (W : World) (file_name note : string) :
  degraded_path L W file_name note ->
  exists r,
    result (analyze L W file_name) = Returned r
    /\ doc_id r = Some file_name
    /\ notes r = Some note
    /\ parties r = None
    /\ effective_date r = None
    /\ termination_clause r = None
    /\ confidentiality_clause r = None
    /\ governing_law r = None
    /\ payment_terms r = None
    /\ risk_score r = None.
Proof.
  intros Hpath. exists (ContractSchema_stub file_name note).
  split; [|repeat split; reflexivity].
  rewrite analyze_run.
  assert (Hresp : forall response,
             parsed_response W file_name = Some response ->
             fst (collection_get W file_name) <> []).
  { unfold parsed_response. intros response.
    destruct (collection_get W file_name) as [[|doc docs] metas];
      [discriminate | intros _; discriminate]. }
  destruct Hpath as [Hnone | Hsome Hpipe | response e Hr Hparse Hcls
                    | response data e Hr Hparse Hinit
                    | response v Hr Hparse Hv].
  - now rewrite Hnone.
  - unfold parsed_response. rewrite Hpipe.
    destruct (collection_get W file_name) as [[|doc docs] metas];
      [now contradiction Hsome | reflexivity].
  - specialize (Hresp _ Hr). rewrite Hr.
    destruct (fst (collection_get W file_name)); [contradiction|].
    unfold coerce_response, try_body. now rewrite Hparse, Hcls.
  - specialize (Hresp _ Hr). rewrite Hr.
    destruct (fst (collection_get W file_name)); [contradiction|].
    unfold coerce_response, try_body. rewrite Hparse, Hinit.
    now rewrite (init_raises_validation _ _ _ Hinit).
  - specialize (Hresp _ Hr). rewrite Hr.
    destruct (fst (collection_get W file_name)); [contradiction|].
    unfold coerce_response, try_body. rewrite Hparse.
    destruct v as [| | | | | |data]; try reflexivity. now contradiction (Hv data).
Qed.

Lemma degraded_paths_return_stub_witness :
  exists r,
    result (analyze Reference.lib
              (Reference.world nda_store (Some " I cannot comply.")) "nda.pdf")
    = Returned r
    /\ doc_id r = Some "nda.pdf"
    /\ notes r
       = Some ("Failed to parse analysis result. Raw output: "
                 ++ PyStr.take 100 "I cannot comply.")
    /\ parties r = None
    /\ effective_date r = None
    /\ termination_clause r = None
    /\ confidentiality_clause r = None
    /\ governing_law r = None
    /\ payment_terms r = None
    /\ risk_score r = None.
Proof.
  apply degraded_paths_return_stub.
  eapply ParseFailure; vm_compute; reflexivity.
Defined.

Lemma dict_get_set (d : dict) (key key' : string) (v : json) :
  dict_get (dict_set d key v) key'
  = if key =? key' then v else dict_get d key'.
Proof.
  induction d as [|[k w] d IH]; simpl.
  - now destruct (key =? key').
  - destruct (k =? key) eqn:Ek; simpl.
    + apply String.eqb_eq in Ek. subst k. now destruct (key =? key').
    + rewrite IH. destruct (k =? key') eqn:Ek'; [|reflexivity].
      apply String.eqb_eq in Ek'. subst k. now rewrite String.eqb_sym, Ek.
Qed.

Lemma repaired_value_idem (L : Lib) (val : json) :
  repaired_value L (repaired_value L val) = repaired_value L val.
Proof.
  unfold repaired_value.
  destruct val as [|b|z|f|s|[|item items]|[|member members]]; cbn [truthy];
    repeat match goal with
           | |- context [if ?b then _ else _] =>
               let E := fresh "E" in destruct b eqn:E; cbn [truthy]; rewrite ?E
           end; reflexivity.
Qed.

Lemma repair_string_field_get (L : Lib) (data : dict) (field key : string) :
  dict_get (repair_string_field L data field) key
  = if field =? key then repaired_value L (dict_get data key)
    else dict_get data key.
Proof.
  unfold repair_string_field, repaired_value.
  destruct (field =? key) eqn:E.
  - apply String.eqb_eq in E. subst key.
    destruct (truthy (dict_get data field)); [|reflexivity].
    destruct (dict_get data field) eqn:Ev; try exact Ev;
      now rewrite dict_get_set, String.eqb_refl.
  - destruct (truthy (dict_get data field)); [|reflexivity].
    destruct (dict_get data field); try reflexivity;
      now rewrite dict_get_set, E.
Qed.

Lemma repair_loop_get (L : Lib) (fields : list string) (data : dict)
    (key : string) :
  dict_get (fold_left (repair_string_field L) fields data) key
  = if existsb (String.eqb key) fields
    then repaired_value L (dict_get data key)
    else dict_get data key.
Proof.
  revert data; induction fields as [|f fields IH]; intros data; simpl;
    [reflexivity|].
  rewrite IH, repair_string_field_get, (String.eqb_sym key f).
  destruct (f =? key); simpl.
  - rewrite repaired_value_idem. now destruct (existsb (String.eqb key) fields).
  - reflexivity.
Qed.

Lemma repair_payment_terms_get (L : Lib) (data : dict) (key : string) :
  key <> "payment_terms" ->
  dict_get (repair_payment_terms L data) key = dict_get data key.
Proof.
  intros Hne. unfold repair_payment_terms.
  assert (E : ("payment_terms" =? key) = false).
  { apply String.eqb_neq. congruence. }
  destruct (truthy (dict_get data "payment_terms")); [|reflexivity].
  destruct (dict_get data "payment_terms"); try reflexivity;
    now rewrite dict_get_set, E.
Qed.

Lemma repair_get (L : Lib) (data : dict) (field : string) :
  In field string_fields ->
  dict_get (repair L data) field = repaired_value L (dict_get data field).
Proof.
  intros Hin. unfold repair.
  rewrite repair_payment_terms_get, repair_loop_get.
  - assert (E : existsb (String.eqb field) string_fields = true).
    { apply existsb_exists. exists field. split; [assumption | apply String.eqb_refl]. }
    now rewrite E.
  - intros ->. cbv in Hin. intuition discriminate.
Qed.

Lemma init_string_fields (L : Lib) (data : dict) (r : ContractSchema)
    (field : string) :
  ContractSchema_init L data = Returned r ->
  In field string_fields ->
  validate_optional (validate_str L) (dict_get data field)
  = Some (string_field r field).
Proof.
  unfold ContractSchema_init. intros H Hin.
  repeat match type of H with
         | context [match ?o with Some _ => _ | None => _ end] =>
             let E := fresh "E" in destruct o eqn:E; try discriminate H
         end.
  injection H as <-.
  cbv [string_fields In] in Hin.
  repeat (destruct Hin as [<-|Hin]; [assumption|]). contradiction.
Qed.

(** C2 (as amended).  For every JSON object that the response parses to,
    the repair step replaces each string-typed field that holds a non-empty
    list by its elements' [str] joined with [", "], and each that holds a
    non-empty mapping by its [key: value] pairs joined with [", "], before
    validation and whatever the other fields hold.  When the repaired
    object passes validation, the record returned holds these strings in
    the corresponding fields; when validation refuses it, the result is the
    validation-error record. *)
Theorem repair_joins_collections (L : Lib) (response file_name : string)
    (data : dict) :
  json_loads L response = Returned (JDict data) ->
  (forall field,
     In field string_fields ->
     (forall items,
        dict_get data field = JList items -> items <> [] ->
        dict_get (repair L data) field = JStr (join_items L items))
     /\ (forall members,
           dict_get data field = JDict members -> members <> [] ->
           dict_get (repair L data) field = JStr (join_members L members)))
  /\ (forall r,
        ContractSchema_init L (repair L data) = Returned r ->
        coerce_response L response file_name = Returned r
        /\ forall field,
             In field string_fields ->
             (forall items,
                dict_get data field = JList items -> items <> [] ->
                string_field r field = Some (join_items L items))
             /\ (forall members,
                   dict_get data field = JDict members -> members <> [] ->
                   string_field r field = Some (join_members L members)))
  /\ (forall e,
        ContractSchema_init L (repair L data) = Raised e ->
        coerce_response L response file_name
        = Returned (ContractSchema_stub file_name
                      ("Validation error: " ++ exn_msg e))).
Proof.
  intros Hparse.
  assert (Hlist : forall field items,
             In field string_fields ->
             dict_get data field = JList items -> items <> [] ->
             dict_get (repair L data) field = JStr (join_items L items)).
  { intros field items Hin Hget Hne. rewrite (repair_get L data field Hin), Hget.
    unfold repaired_value. destruct items; [contradiction | reflexivity]. }
  assert (Hmap : forall field members,
             In field string_fields ->
             dict_get data field = JDict members -> members <> [] ->
             dict_get (repair L data) field = JStr (join_members L members)).
  { intros field members Hin Hget Hne.
    rewrite (repair_get L data field Hin), Hget.
    unfold repaired_value. destruct members; [contradiction | reflexivity]. }
  split; [|split].
  - intros field Hin. split; intros ? Hget Hne; [now apply Hlist | now apply Hmap].
  - intros r Hinit. split.
    { unfold coerce_response, try_body. now rewrite Hparse, Hinit. }
    intros field Hin.
    pose proof (init_string_fields _ _ _ _ Hinit Hin) as Hfield.
    split.
    + intros items Hget Hne. rewrite (Hlist _ _ Hin Hget Hne) in Hfield.
      cbn in Hfield. now injection Hfield as <-.
    + intros members Hget Hne. rewrite (Hmap _ _ Hin Hget Hne) in Hfield.
      cbn in Hfield. now injection Hfield as <-.
  - intros e Hinit. unfold coerce_response, try_body. rewrite Hparse, Hinit.
    now rewrite (init_raises_validation _ _ _ Hinit).
Qed.

Lemma repair_joins_collections_witness :
  json_loads Reference.lib collections_response = Returned (JDict collections_data)
  /\ dict_get (repair Reference.lib collections_data) "parties"
     = JStr "Acme Corp, Beta LLC"
  /\ dict_get (repair Reference.lib collections_data) "governing_law"
     = JStr "state: New York, venue: Manhattan"
  /\ coerce_response Reference.lib collections_response "nda.pdf"
     = Returned collections_record
  /\ string_field collections_record "parties" = Some "Acme Corp, Beta LLC"
  /\ string_field collections_record "governing_law"
     = Some "state: New York, venue: Manhattan".
Proof.
  assert (H1 : json_loads Reference.lib collections_response
               = Returned (JDict collections_data)) by (vm_compute; reflexivity).
  assert (H2 : ContractSchema_init Reference.lib
                 (repair Reference.lib collections_data)
               = Returned collections_record) by (vm_compute; reflexivity).
  destruct (repair_joins_collections Reference.lib collections_response
              "nda.pdf" collections_data H1) as (Hrepair & Hpass & _).
  destruct (Hpass collections_record H2) as [Hc Hf].
  assert (Hp : In "parties" string_fields) by (cbv; tauto).
  assert (Hg : In "governing_law" string_fields) by (cbv; tauto).
  split; [exact H1|]. split; [|split; [|split; [exact Hc|split]]].
  - destruct (Hrepair "parties" Hp) as [Hlist _].
    apply (Hlist [JStr "Acme Corp"; JStr "Beta LLC"] eq_refl). discriminate.
  - destruct (Hrepair "governing_law" Hg) as [_ Hmap].
    apply (Hmap [("state", JStr "New York"); ("venue", JStr "Manhattan")] eq_refl).
    discriminate.
  - destruct (Hf "parties" Hp) as [Hlist _].
    apply (Hlist [JStr "Acme Corp"; JStr "Beta LLC"] eq_refl). discriminate.
  - destruct (Hf "governing_law" Hg) as [_ Hmap].
    apply (Hmap [("state", JStr "New York"); ("venue", JStr "Manhattan")] eq_refl).
    discriminate.
Defined.

(** C2 as first stated fails.  With a field that validation refuses next
    to it, a list under [parties] does not reach the record: the whole
    result is the validation-error record.  An empty list under [parties]
    is not repaired and is refused by validation as well. *)
Lemma collections_not_always_joined :
  ~ joins_every_collection Reference.lib bad_score_response "nda.pdf"
  /\ ~ joins_every_collection Reference.lib empty_list_response "nda.pdf"
  /\ (exists r,
        coerce_response Reference.lib bad_score_response "nda.pdf" = Returned r
        /\ parties r = None)
  /\ (exists r,
        coerce_response Reference.lib empty_list_response "nda.pdf" = Returned r
        /\ parties r = None).
Proof.
  split; [|split; [|split]].
  - intros H.
    destruct (H [ ("parties", JList [JStr "Acme Corp"; JStr "Beta LLC"]);
                  ("risk_score", JList [JInt 40]) ] "parties")
      as [Hlist _]; [vm_compute; reflexivity | vm_compute; tauto |].
    destruct (Hlist [JStr "Acme Corp"; JStr "Beta LLC"] eq_refl) as (r & Hr & Hf).
    vm_compute in Hr. injection Hr as <-. discriminate Hf.
  - intros H.
    destruct (H [ ("parties", JList []) ] "parties")
      as [Hlist _]; [vm_compute; reflexivity | vm_compute; tauto |].
    destruct (Hlist [] eq_refl) as (r & Hr & Hf).
    vm_compute in Hr. injection Hr as <-. discriminate Hf.
  - eexists. split; [vm_compute; reflexivity | reflexivity].
  - eexists. split; [vm_compute; reflexivity | reflexivity].
Qed.

End CoerceProofs.

(** ** More on strings *)

Section MoreStringFacts.

Lemma length_app_str (a b : string) :
  String.length (a ++ b) = (String.length a + String.length b)%nat.
Proof. induction a as [|c a IH]; simpl; [reflexivity | now rewrite IH]. Qed.

Lemma app_assoc_str (a b c : string) : (a ++ b) ++ c = a ++ b ++ c.
Proof. induction a as [|x a IH]; simpl; [reflexivity | now rewrite IH]. Qed.

Lemma app_nil_r_str (a : string) : a ++ "" = a.
Proof. induction a as [|x a IH]; simpl; [reflexivity | now rewrite IH]. Qed.

Lemma take_app_le (n : nat) (a b : string) :
  (n <= String.length a)%nat -> PyStr.take n (a ++ b) = PyStr.take n a.
Proof.
  revert a; induction n as [|n IH]; intros [|c a] H; simpl in *;
    try reflexivity; try lia.
  rewrite IH; [reflexivity | lia].
Qed.

Lemma drop_app_length (a b : string) :
  PyStr.drop (String.length a) (a ++ b) = b.
Proof. induction a as [|c a IH]; simpl; [reflexivity | exact IH]. Qed.

Lemma drop_app_exact (n : nat) (a b : string) :
  String.length a = n -> PyStr.drop n (a ++ b) = b.
Proof. intros <-. apply drop_app_length. Qed.

Lemma take_take_le (n m : nat) (s : string) :
  (n <= m)%nat -> PyStr.take n (PyStr.take m s) = PyStr.take n s.
Proof.
  revert m s; induction n as [|n IH]; intros [|m] [|c s] H; simpl;
    try reflexivity; try lia.
  rewrite IH; [reflexivity | lia].
Qed.

Lemma take_extend (pos upto : nat) (s : string) :
  (pos <= upto)%nat ->
  PyStr.take pos s ++ PyStr.take (upto - pos) (PyStr.drop pos s)
  = PyStr.take upto s.
Proof.
  revert upto s; induction pos as [|pos IH]; intros upto s H.
  - now rewrite Nat.sub_0_r.
  - destruct upto as [|upto]; [lia|]. destruct s as [|c s]; simpl.
    + now destruct (upto - pos)%nat.
    + rewrite IH; [reflexivity | lia].
Qed.

End MoreStringFacts.

(** ** PII masking ([mask_pii]) *)

Module PiiProofs.
Import Pii PiiSpec.

Lemma collect_acc (ents : list (nat * nat * string)) (acc : list replacement) :
  fold_left
    (fun (replacements : list replacement) (ent : nat * nat * string) =>
       let '(start_char, end_char, label) := ent in
       if (label =? "PERSON") || (label =? "ORG") || (label =? "GPE")
       then (replacements
               ++ [(start_char, end_char, ("[" ++ label ++ "]")%string)])%list
       else replacements)
    ents acc
  = (acc ++ map bracket (filter maskable ents))%list.
Proof.
  revert acc; induction ents as [|[[s e] label] ents IH]; intros acc; simpl.
  - now rewrite app_nil_r.
  - rewrite IH. unfold maskable. cbn [snd fst].
    destruct ((label =? "PERSON") || (label =? "ORG") || (label =? "GPE"));
      simpl; [now rewrite <- app_assoc | reflexivity].
Qed.

Lemma collect_filter (ents : list (nat * nat * string)) :
  collect ents = map bracket (filter maskable ents).
Proof. unfold collect. now rewrite collect_acc. Qed.

Lemma insert_desc_last (r : replacement) (sorted : list replacement) :
  Forall (fun r' => (start_of r < start_of r')%nat) sorted ->
  insert_desc r sorted = (sorted ++ [r])%list.
Proof.
  induction 1 as [|r' sorted Hlt _ IH]; simpl; [reflexivity|].
  apply Nat.ltb_lt in Hlt. now rewrite Hlt, IH.
Qed.

Lemma well_placed_weaken (pos pos' len : nat) (spans : list (nat * nat * string)) :
  (pos' <= pos)%nat -> well_placed pos spans len -> well_placed pos' spans len.
Proof.
  destruct spans as [|span spans]; simpl; [lia|].
  intros Hle (H1 & H2 & H3). repeat split; try assumption. lia.
Qed.

Lemma well_placed_bound (pos len : nat) (spans : list (nat * nat * string)) :
  well_placed pos spans len -> (pos <= len)%nat.
Proof.
  revert pos; induction spans as [|span spans IH]; intros pos; simpl; [lia|].
  intros (H1 & H2 & H3). apply IH in H3. lia.
Qed.

Lemma well_placed_filter (f : nat * nat * string -> bool) (pos len : nat)
    (spans : list (nat * nat * string)) :
  well_placed pos spans len -> well_placed pos (filter f spans) len.
Proof.
  revert pos; induction spans as [|span spans IH]; intros pos; simpl; [lia|].
  intros (H1 & H2 & H3). destruct (f span); simpl.
  - repeat split; try assumption. now apply IH.
  - apply well_placed_weaken with (pos := snd (fst span)); [lia | now apply IH].
Qed.

Lemma well_placed_bracket (pos len : nat) (ents : list (nat * nat * string)) :
  well_placed pos ents len -> well_placed pos (map bracket ents) len.
Proof.
  revert pos; induction ents as [|ent ents IH]; intros pos; simpl; [lia|].
  intros (H1 & H2 & H3). repeat split; try assumption. now apply IH.
Qed.

Lemma well_placed_starts (pos len : nat) (spans : list (nat * nat * string)) :
  well_placed pos spans len ->
  Forall (fun span => (pos <= fst (fst span))%nat) spans.
Proof.
  revert pos; induction spans as [|span spans IH]; intros pos; simpl;
    [constructor|].
  intros (H1 & H2 & H3). constructor; [assumption|].
  apply IH in H3. eapply Forall_impl; [|exact H3]. simpl. intros a Ha. lia.
Qed.

Lemma sort_desc_ascending (pos len : nat) (spans : list replacement) :
  well_placed pos spans len -> sort_desc spans = rev spans.
Proof.
  revert pos; induction spans as [|span spans IH]; intros pos; [reflexivity|].
  intros (H1 & H2 & H3). cbn [rev]. unfold sort_desc in *. cbn [fold_right].
  rewrite (IH _ H3). apply insert_desc_last.
  apply Forall_rev. apply well_placed_starts in H3.
  eapply Forall_impl; [|exact H3]. intros a Ha. unfold start_of.
  cbv beta in Ha. lia.
Qed.

Lemma replace_spans (text : string) (spans : list replacement) (pos : nat) :
  well_placed pos spans (String.length text) ->
  fold_left replace_span (rev spans) text
  = PyStr.take pos text ++ splice text pos spans.
Proof.
  revert pos; induction spans as [|[[s e] label] spans IH]; intros pos.
  - intros _. cbn [rev fold_left splice]. now rewrite take_drop.
  - intros (H1 & H2 & H3). cbn [fst snd] in *.
    cbn [rev]. rewrite fold_left_app. cbn [fold_left].
    rewrite (IH _ H3). unfold replace_span.
    assert (Hlen : String.length (PyStr.take e text) = e).
    { rewrite length_take. apply Nat.min_l. now apply well_placed_bound in H3. }
    rewrite take_app_le by lia. rewrite take_take_le by lia.
    rewrite (drop_app_exact _ _ _ Hlen).
    cbn [splice fst snd]. rewrite <- (take_extend pos s text H1).
    now rewrite !app_assoc_str.
Qed.

(** X1.  When the recogniser's entities are in reading order, non-empty, not
    overlapping and within the text, [mask_pii] returns the text with the
    span of every PERSON, ORG and GPE entity replaced by its bracketed label
    and everything else (other entities included) left in place: replacing
    from the last span backwards never shifts a span still to be replaced. *)
Theorem mask_pii_replaces_spans (W : World) (text : string) :
  well_placed 0 (nlp_ents W text) (String.length text) ->
  mask_pii W text
  = splice text 0 (map bracket (filter maskable (nlp_ents W text))).
Proof.
  intros Hplaced. unfold mask_pii.
  pose proof (well_placed_bracket _ _ _
                (well_placed_filter maskable _ _ _ Hplaced)) as Hf.
  destruct (text =? "") eqn:E.
  - apply String.eqb_eq in E. subst text.
    destruct (map bracket (filter maskable (nlp_ents W ""))) as [|span spans];
      [reflexivity|].
    destruct Hf as (_ & H2 & H3). apply well_placed_bound in H3.
    cbn [String.length] in H3. lia.
  - rewrite collect_filter, (sort_desc_ascending _ _ _ Hf).
    exact (replace_spans text _ 0 Hf).
Qed.

Lemma mask_pii_replaces_spans_witness :
  Pii.mask_pii Reference.ingest_world Reference.nda_page
  = "This Agreement may be terminated upon 30 days notice by [ORG].".
Proof.
  rewrite mask_pii_replaces_spans; [reflexivity|].
  vm_compute. repeat split; repeat constructor.
Defined.

(** X2.  Without a PERSON, ORG or GPE entity [mask_pii] returns its text
    unchanged, whatever other entities the recogniser reports and wherever
    it places them. *)
Theorem mask_pii_without_entities (W : World) (text : string) :
  filter maskable (nlp_ents W text) = [] -> mask_pii W text = text.
Proof.
  intros Hnone. unfold mask_pii. rewrite collect_filter, Hnone.
  destruct (text =? "") eqn:E; [|reflexivity].
  apply String.eqb_eq in E. now subst.
Qed.

Lemma mask_pii_without_entities_witness :
  Pii.mask_pii (Reference.world [] None) "Payment is due within 30 days."
  = "Payment is due within 30 days.".
Proof. apply mask_pii_without_entities. reflexivity. Defined.

End PiiProofs.

(** ** Text extraction and the payload of [upsert] *)

Module IngestMoreProofs.
Import Ingest IngestSpec IngestMoreSpec.

Lemma concat_empty_sep (a : string) (rest : list string) :
  String.concat "" (a :: rest) = a ++ String.concat "" rest.
Proof.
  destruct rest as [|b rest]; cbn [String.concat].
  - now rewrite app_nil_r_str.
  - reflexivity.
Qed.

Lemma read_pages_returned (pages : list (option string))
    (tail : list (outcome (option string))) (text : string) :
  read_pages (map Returned pages ++ tail)%list text
  = read_pages tail (text ++ pages_text pages).
Proof.
  revert text; induction pages as [|[[|c t]|] pages IH]; intros text;
    cbn [map app read_pages].
  - unfold pages_text. cbn. now rewrite app_nil_r_str.
  - rewrite IH. reflexivity.
  - rewrite IH. unfold pages_text. cbn [page_texts map].
    rewrite concat_empty_sep. now rewrite !app_assoc_str.
  - rewrite IH. reflexivity.
Qed.

Lemma extract_text_all_pages (W : World) (pdf_path : string)
    (pages : list (option string)) :
  pdf_pages W pdf_path = Returned (map Returned pages) ->
  extract_text_from_pdf W pdf_path = pages_text pages.
Proof.
  unfold extract_text_from_pdf. intros ->.
  rewrite <- (app_nil_r (map Returned pages)).
  now rewrite read_pages_returned.
Qed.

(** X3.  [extract_text_from_pdf] never raises.  It returns the text of the
    pages that have some, each followed by a newline, in page order; when a
    page raises, the text of the pages before it; and the empty string when
    the file cannot be opened. *)
Theorem extract_text_from_pdf_pages (W : World) (pdf_path : string) :
  (forall e, pdf_pages W pdf_path = Raised e ->
     extract_text_from_pdf W pdf_path = "")
  /\ (forall pages,
        pdf_pages W pdf_path = Returned (map Returned pages) ->
        extract_text_from_pdf W pdf_path = pages_text pages)
  /\ (forall pages e later,
        pdf_pages W pdf_path = Returned (map Returned pages ++ Raised e :: later)%list ->
        extract_text_from_pdf W pdf_path = pages_text pages).
Proof.
  split; [|split].
  - unfold extract_text_from_pdf. now intros e ->.
  - apply extract_text_all_pages.
  - unfold extract_text_from_pdf. intros pages e later ->.
    now rewrite read_pages_returned.
Qed.

(** X4.  A PDF that cannot be opened, or none of whose pages has text, is
    skipped: [ingest_file] makes the extraction call and nothing else, so
    nothing is split, masked, embedded, tagged or upserted for it. *)
Theorem unreadable_pdf_is_skipped (W : World) (file_path : string) :
  ((exists e, pdf_pages W file_path = Raised e)
   \/ (exists pages,
         pdf_pages W file_path = Returned (map Returned pages)
         /\ page_texts pages = [])) ->
  ingest_file W file_path = (Returned tt, [ CallExtractText file_path ]).
Proof.
  intros H. rewrite IngestProofs.ingest_file_run. cbn zeta.
  assert (E : extract_text_from_pdf W file_path = "").
  { destruct H as [[e He]|(pages & Hp & Hnone)].
    - unfold extract_text_from_pdf. now rewrite He.
    - rewrite (extract_text_all_pages _ _ _ Hp). unfold pages_text.
      now rewrite Hnone. }
  now rewrite E.
Qed.

Lemma unreadable_pdf_is_skipped_witness :
  Ingest.ingest_file (Reference.world [] None) "docs/policies/scan.pdf"
  = (Returned tt, [ CallExtractText "docs/policies/scan.pdf" ]).
Proof.
  apply unreadable_pdf_is_skipped. right. exists []. split; reflexivity.
Defined.

Lemma str_of_int_inj (a b : Z) : str_of_int a = str_of_int b -> a = b.
Proof.
  unfold str_of_int. intros H.
  assert (Hnn : forall z, Z.to_int z <> Decimal.Pos Decimal.Nil
                          /\ Z.to_int z <> Decimal.Neg Decimal.Nil).
  { intros z. split; intros Hz; pose proof (f_equal Z.of_int Hz) as H0;
      rewrite DecimalZ.of_to in H0; cbn in H0; subst z; discriminate Hz. }
  apply DecimalZ.to_int_inj.
  assert (Hs : Some (Z.to_int a) = Some (Z.to_int b)).
  { rewrite <- (DecimalString.NilZero.isi (Z.to_int a)) by apply Hnn.
    rewrite <- (DecimalString.NilZero.isi (Z.to_int b)) by apply Hnn.
    now rewrite H. }
  now injection Hs.
Qed.

Lemma app_inv_head_str (a b c : string) : a ++ b = a ++ c -> b = c.
Proof.
  induction a as [|x a IH]; simpl; [trivial|]. intros H. injection H. exact IH.
Qed.

Lemma chunk_id_inj (file_name : string) (i j : nat) :
  chunk_id file_name i = chunk_id file_name j -> i = j.
Proof.
  unfold chunk_id. intros H. apply app_inv_head_str in H.
  apply (app_inv_head_str "_") in H. apply str_of_int_inj in H. lia.
Qed.

Lemma NoDup_map_injective {A B : Type} (f : A -> B) (l : list A) :
  (forall x y, f x = f y -> x = y) -> NoDup l -> NoDup (map f l).
Proof.
  intros Hinj. induction 1 as [|x l Hx _ IH]; simpl; constructor; [|exact IH].
  intros Hin. apply in_map_iff in Hin as (y & Hy & Hin).
  apply Hinj in Hy. now subst.
Qed.

Lemma nth_error_enumerate_from {A : Type} (xs : list A) (start i : nat) :
  nth_error (combine (seq start (List.length xs)) xs) i
  = option_map (fun x => ((start + i)%nat, x)) (nth_error xs i).
Proof.
  revert start i; induction xs as [|x xs IH]; intros start [|i]; simpl;
    try reflexivity.
  - now rewrite Nat.add_0_r.
  - rewrite IH. now rewrite Nat.add_succ_r.
Qed.

Lemma nth_error_enumerate {A : Type} (xs : list A) (i : nat) :
  nth_error (enumerate xs) i = option_map (fun x => (i, x)) (nth_error xs i).
Proof. unfold enumerate. now rewrite nth_error_enumerate_from. Qed.

(** X5.  What [ingest_file] hands to [collection.upsert]: the masked chunks
    (at least one), their embeddings, and one metadata record and one
    identifier per chunk, by position.  The identifier of chunk [i] is the
    base name of the file, an underscore and [i]; identifiers within a file
    are pairwise distinct.  The metadata of chunk [i] holds the base name,
    the document type, [i] and the clause tags of the masked chunk. *)
Theorem upsert_payload (W : World) (file_path : string) (docs : list string)
    (embs : list embedding) (metas : list metadata) (ids : list string) :
  In (CallUpsert docs embs metas ids) (calls (ingest_file W file_path)) ->
  let file_name := PyStr.split_last "/" file_path in
  let doc_type :=
    if PyStr.str_in "policies" file_path then "policy" else "contract" in
  docs = map (Pii.mask_pii W) (split_text W (extract_text_from_pdf W file_path))
  /\ docs <> []
  /\ embs = encode W docs
  /\ List.length metas = List.length docs
  /\ List.length ids = List.length docs
  /\ NoDup ids
  /\ (forall i chunk,
        nth_error docs i = Some chunk ->
        nth_error ids i = Some (chunk_id file_name i)
        /\ nth_error metas i
           = Some {| source := Some file_name;
                     type_ := Some doc_type;
                     chunk_index := Some (Z.of_nat i);
                     clause_types := Some (detect_clause_types chunk) |}).
Proof.
  rewrite IngestProofs.ingest_file_run. unfold calls. cbn [snd]. cbn zeta.
  set (raw_text := extract_text_from_pdf W file_path).
  destruct (raw_text =? "").
  { intros [H|[]]; discriminate. }
  destruct (split_text W raw_text) as [|c0 cs] eqn:Esplit.
  { intros [H|[H|[]]]; discriminate. }
  unfold document_trace. cbn zeta.
  remember (map (Pii.mask_pii W) (c0 :: cs)) as chunks eqn:Echunks.
  intros Hin. cbn [app In] in Hin. destruct Hin as [H|[H|Hin]]; try discriminate.
  apply in_app_or in Hin as [Hin|Hin].
  { apply in_map_iff in Hin as (x & Hx & _). discriminate. }
  cbn [app In] in Hin. destruct Hin as [H|Hin]; [discriminate|].
  apply in_app_or in Hin as [Hin|[H|[]]].
  { apply in_map_iff in Hin as (x & Hx & _). discriminate. }
  injection H as <- <- <- <-.
  split; [reflexivity|]. split; [rewrite Echunks; discriminate|].
  split; [rewrite Echunks; reflexivity|].
  split.
  { rewrite length_map. unfold enumerate.
    now rewrite length_combine, length_seq, Nat.min_id. }
  split; [now rewrite length_map, length_seq|].
  split.
  { apply (NoDup_map_injective (chunk_id (PyStr.split_last "/" file_path))).
    - intros x y. apply chunk_id_inj.
    - apply seq_NoDup. }
  intros i chunk Hi. split.
  - change (nth_error (map (chunk_id (PyStr.split_last "/" file_path))
                          (seq 0 (List.length chunks))) i
            = Some (chunk_id (PyStr.split_last "/" file_path) i)).
    rewrite nth_error_map.
    assert (Hlt : (i < List.length chunks)%nat)
      by (apply nth_error_Some; congruence).
    rewrite (nth_error_nth' _ 0%nat) by now rewrite length_seq.
    now rewrite seq_nth.
  - rewrite nth_error_map, nth_error_enumerate, Hi. reflexivity.
Qed.

Lemma upsert_payload_witness :
  [ "This Agreement may be terminated upon 30 days notice by [ORG]." ++ PyStr.nl ]
  = map (Pii.mask_pii Reference.ingest_world)
        (split_text Reference.ingest_world
           (Ingest.extract_text_from_pdf Reference.ingest_world
              "docs/contracts/nda.pdf"))
  /\ NoDup [ "nda.pdf_0" ].
Proof.
  destruct (upsert_payload Reference.ingest_world "docs/contracts/nda.pdf"
              [ "This Agreement may be terminated upon 30 days notice by [ORG]."
                  ++ PyStr.nl ]
              [ [0.5%float] ]
              [ {| source := Some "nda.pdf"; type_ := Some "contract";
                   chunk_index := Some 0%Z; clause_types := Some "termination" |} ]
              [ "nda.pdf_0" ])
    as (H1 & _ & _ & _ & _ & H6 & _).
  - vm_compute. tauto.
  - split; [exact H1 | exact H6].
Defined.

End IngestMoreProofs.

(** ** More on the clause tagger, and how the analyzer reads its tags *)

Module TagMoreProofs.
Import Ingest TaggerSpec TagMoreSpec ContractAnalyzer.

Lemma detected_sublist (text : string) :
  In (detected text) (map (map fst) (sublists CLAUSE_KEYWORDS)).
Proof.
  unfold detected. rewrite TaggerProofs.detect_loop_filter.
  apply in_map, TaggerProofs.filter_sublists.
Qed.

Lemma distinct_NoDup (l : list string) : distinct l = true -> NoDup l.
Proof.
  induction l as [|x l IH]; simpl; [constructor|].
  intros H. apply andb_true_iff in H as [Hx Hl]. constructor; [|now apply IH].
  intros Hin. apply negb_true_iff in Hx.
  assert (Ht : existsb (String.eqb x) l = true).
  { apply existsb_exists. exists x. split; [assumption | apply String.eqb_refl]. }
  congruence.
Qed.

(** Checked on each of the 1024 outcomes of the loop. *)
Lemma render_roundtrip :
  forallb
    (fun tags =>
       same_tags (tags_in (render tags))
                 (match tags with [] => ["general"] | _ => tags end)
       && negb (render tags =? "")
       && Bool.eqb (render tags =? "general")
                   (match tags with [] => true | _ => false end)
       && distinct tags)
    (map (map fst) (sublists CLAUSE_KEYWORDS)) = true.
Proof. vm_compute. reflexivity. Qed.

(** X6.  The string returned by [detect_clause_types] is never empty and
    splits at its commas into exactly the detected tags (into the single tag
    ["general"] when none was detected); no tag occurs twice, and the string
    is ["general"] only when no clause type was triggered. *)
Theorem detect_clause_types_roundtrip (text : string) :
  tags_in (detect_clause_types text)
  = match detected text with [] => ["general"] | tags => tags end
  /\ detect_clause_types text <> ""
  /\ NoDup (detected text)
  /\ (detect_clause_types text = "general"
      <-> forall clause, ~ triggered clause text).
Proof.
  assert (Hr : detect_clause_types text = render (detected text)).
  { unfold detect_clause_types, render. now destruct (detected text). }
  pose proof render_roundtrip as H. rewrite forallb_forall in H.
  specialize (H _ (detected_sublist text)).
  apply andb_true_iff in H as [H H4]. apply andb_true_iff in H as [H H3].
  apply andb_true_iff in H as [H1 H2].
  rewrite Hr. split; [|split; [|split]].
  - unfold same_tags in H1.
    destruct (list_eq_dec string_dec _ _) as [E|]; [|discriminate].
    rewrite E. now destruct (detected text).
  - intros E. rewrite E in H2. discriminate.
  - now apply distinct_NoDup.
  - apply Bool.eqb_prop in H3. split.
    + intros E clause Ht. apply TaggerProofs.detected_iff in Ht.
      rewrite E in H3. change ("general" =? "general") with true in H3.
      destruct (detected text) as [|c tags]; [destruct Ht | discriminate H3].
    + intros Hnone. destruct (detected text) as [|c tags] eqn:E; [reflexivity|].
      exfalso. apply (Hnone c), TaggerProofs.detected_iff. rewrite E. now left.
Qed.

Lemma in_bucket_iff (meta : metadata) (text clause : string) :
  clause_types meta = Some (detect_clause_types text) ->
  In clause clause_names ->
  (PyStr.str_in clause (tags_of meta) = true <-> triggered clause text).
Proof.
  intros Hm Hc. unfold tags_of. rewrite Hm.
  rewrite TaggerProofs.str_in_render by assumption.
  apply TaggerProofs.detected_iff.
Qed.

(** X7.  A chunk whose [clause_types] metadata is what the tagger returned
    for its text is put by the analyzer in the parties, termination,
    governing-law, confidentiality and payment buckets exactly when the
    matching clause type was triggered; in the dates bucket exactly when
    effective_date or renewal was; and in the risk bucket exactly when
    liability, restrictive_covenants or license_ip was. *)
Theorem tagged_chunk_buckets (meta : metadata) (text : string) :
  clause_types meta = Some (detect_clause_types text) ->
  (in_parties meta = true <-> triggered "parties" text)
  /\ (in_effective_date meta = true
      <-> triggered "effective_date" text \/ triggered "renewal" text)
  /\ (in_termination meta = true <-> triggered "termination" text)
  /\ (in_governing_law meta = true <-> triggered "governing_law" text)
  /\ (in_confidentiality meta = true <-> triggered "confidentiality" text)
  /\ (in_payment_terms meta = true <-> triggered "payment_terms" text)
  /\ (in_liability meta = true
      <-> triggered "liability" text \/ triggered "restrictive_covenants" text
          \/ triggered "license_ip" text).
Proof.
  intros Hm.
  assert (Hb : forall clause, In clause clause_names ->
                 (PyStr.str_in clause (tags_of meta) = true
                  <-> triggered clause text))
    by (intros clause; now apply in_bucket_iff).
  unfold in_parties, in_effective_date, in_termination, in_governing_law,
    in_confidentiality, in_payment_terms, in_liability.
  rewrite !orb_true_iff.
  rewrite !Hb by (vm_compute; tauto). tauto.
Qed.

Lemma tagged_chunk_buckets_witness :
  in_termination
    (tagged_meta "nda.pdf" 4 "This Agreement may be terminated upon 30 days notice")
  = true
  <-> triggered "termination" "This Agreement may be terminated upon 30 days notice".
Proof.
  apply (tagged_chunk_buckets
           (tagged_meta "nda.pdf" 4
              "This Agreement may be terminated upon 30 days notice")
           "This Agreement may be terminated upon 30 days notice").
  reflexivity.
Defined.

End TagMoreProofs.

(** ** More on shape repair and validation *)

Module CoerceMoreProofs.
Import ContractAnalyzer CoerceSpec CoerceMoreSpec.

Lemma init_other_fields (L : Lib) (data : dict) (r : ContractSchema) :
  ContractSchema_init L data = Returned r ->
  validate_optional (validate_str L) (dict_get data "doc_id") = Some (doc_id r)
  /\ validate_optional (validate_PaymentTerms L) (dict_get data "payment_terms")
     = Some (payment_terms r)
  /\ validate_optional (validate_int L) (dict_get data "risk_score")
     = Some (risk_score r).
Proof.
  unfold ContractSchema_init. intros H.
  repeat match type of H with
         | context [match ?o with Some _ => _ | None => _ end] =>
             let E := fresh "E" in destruct o eqn:E; try discriminate H
         end.
  injection H as <-. repeat split; assumption.
Qed.

Lemma repair_other_get (L : Lib) (data : dict) (key : string) :
  ~ In key string_fields -> key <> "payment_terms" ->
  dict_get (repair L data) key = dict_get data key.
Proof.
  intros Hnot Hne. unfold repair.
  rewrite CoerceProofs.repair_payment_terms_get by assumption.
  rewrite CoerceProofs.repair_loop_get.
  destruct (existsb (String.eqb key) string_fields) eqn:E; [|reflexivity].
  apply existsb_exists in E as (f & Hf & Heq). apply String.eqb_eq in Heq.
  subst f. contradiction.
Qed.

Lemma repair_payment_get (L : Lib) (data : dict) :
  dict_get (repair L data) "payment_terms"
  = repaired_payment L (dict_get data "payment_terms").
Proof.
  unfold repair, repair_payment_terms, repaired_payment.
  set (looped := fold_left (repair_string_field L) string_fields data).
  assert (E : dict_get looped "payment_terms" = dict_get data "payment_terms").
  { unfold looped. now rewrite CoerceProofs.repair_loop_get. }
  rewrite <- E.
  destruct (truthy (dict_get looped "payment_terms")); [|reflexivity].
  destruct (dict_get looped "payment_terms") eqn:Ev; try exact Ev;
    now rewrite CoerceProofs.dict_get_set, String.eqb_refl.
Qed.

(** X8.  When the response parses to an object and the repaired object
    passes validation, a non-empty bare string under [payment_terms] comes
    out as a payment record with that string as its description and no due
    date, and a non-empty list as a payment record whose description is the
    elements' [str] joined with [", "]. *)
Theorem payment_terms_wrapped (L : Lib) (response file_name : string)
    (data : dict) (r : ContractSchema) :
  json_loads L response = Returned (JDict data) ->
  ContractSchema_init L (repair L data) = Returned r ->
  coerce_response L response file_name = Returned r
  /\ (forall s,
        dict_get data "payment_terms" = JStr s -> s <> "" ->
        payment_terms r = Some {| description := Some s; due_date := None |})
  /\ (forall items,
        dict_get data "payment_terms" = JList items -> items <> [] ->
        payment_terms r
        = Some {| description := Some (join_items L items); due_date := None |}).
Proof.
  intros Hparse Hinit. split.
  { unfold coerce_response, try_body. now rewrite Hparse, Hinit. }
  destruct (init_other_fields _ _ _ Hinit) as (_ & Hpt & _).
  rewrite repair_payment_get in Hpt. split.
  - intros s Hget Hne. rewrite Hget in Hpt. unfold repaired_payment in Hpt.
    cbn [truthy] in Hpt. apply String.eqb_neq in Hne. rewrite Hne in Hpt.
    cbn in Hpt. now injection Hpt as <-.
  - intros items Hget Hne. rewrite Hget in Hpt. unfold repaired_payment in Hpt.
    destruct items as [|item items]; [contradiction|].
    cbn in Hpt. now injection Hpt as <-.
Qed.

Lemma payment_terms_wrapped_witness :
  coerce_response Reference.lib payment_response "msa.pdf" = Returned payment_record
  /\ payment_terms payment_record
     = Some {| description := Some "Net 30 days"; due_date := None |}.
Proof.
  assert (H1 : json_loads Reference.lib payment_response
               = Returned (JDict payment_data)) by (vm_compute; reflexivity).
  assert (H2 : ContractSchema_init Reference.lib (repair Reference.lib payment_data)
               = Returned payment_record) by (vm_compute; reflexivity).
  destruct (payment_terms_wrapped Reference.lib payment_response "msa.pdf"
              payment_data payment_record H1 H2) as (Hc & Hs & _).
  split; [exact Hc|]. apply (Hs "Net 30 days"); [reflexivity | discriminate].
Defined.

(** X9.  On the success path the record's [doc_id] and [risk_score] are the
    model's own: an integer risk score of any size is kept as it is (nothing
    clamps it to 0..100), and [doc_id] is the string the model gave, or
    empty when it gave none; the requested file name is not put in. *)
Theorem success_path_passes_through (L : Lib) (response file_name : string)
    (data : dict) (r : ContractSchema) :
  json_loads L response = Returned (JDict data) ->
  ContractSchema_init L (repair L data) = Returned r ->
  coerce_response L response file_name = Returned r
  /\ (forall z, dict_get data "risk_score" = JInt z -> risk_score r = Some z)
  /\ (forall s, dict_get data "doc_id" = JStr s -> doc_id r = Some s)
  /\ (dict_get data "doc_id" = JNull -> doc_id r = None).
Proof.
  intros Hparse Hinit. split.
  { unfold coerce_response, try_body. now rewrite Hparse, Hinit. }
  destruct (init_other_fields _ _ _ Hinit) as (Hid & _ & Hrs).
  rewrite repair_other_get in Hid, Hrs
    by (try discriminate; cbv; intuition discriminate).
  split; [|split].
  - intros z Hget. rewrite Hget in Hrs. cbn in Hrs. now injection Hrs as <-.
  - intros s Hget. rewrite Hget in Hid. cbn in Hid. now injection Hid as <-.
  - intros Hget. rewrite Hget in Hid. cbn in Hid. now injection Hid as <-.
Qed.

Lemma success_path_passes_through_witness :
  coerce_response Reference.lib payment_response "msa.pdf" = Returned payment_record
  /\ risk_score payment_record = Some 250%Z
  /\ doc_id payment_record = Some "MSA-7".
Proof.
  assert (H1 : json_loads Reference.lib payment_response
               = Returned (JDict payment_data)) by (vm_compute; reflexivity).
  assert (H2 : ContractSchema_init Reference.lib (repair Reference.lib payment_data)
               = Returned payment_record) by (vm_compute; reflexivity).
  destruct (success_path_passes_through Reference.lib payment_response "msa.pdf"
              payment_data payment_record H1 H2) as (Hc & Hz & Hs & _).
  split; [exact Hc|]. split; [now apply Hz | now apply Hs].
Defined.

Lemma dict_set_keys (d : dict) (key : string) (v : json) :
  dict_get d key <> JNull -> map fst (dict_set d key v) = map fst d.
Proof.
  induction d as [|[k w] d IH]; simpl; [congruence|].
  destruct (k =? key); simpl; [reflexivity|]. intros H. now rewrite IH.
Qed.

Lemma truthy_not_null (v : json) : truthy v = true -> v <> JNull.
Proof. intros H ->. discriminate. Qed.

Lemma repair_string_field_keys (L : Lib) (data : dict) (field : string) :
  map fst (repair_string_field L data field) = map fst data.
Proof.
  unfold repair_string_field.
  destruct (truthy (dict_get data field)) eqn:Et; [|reflexivity].
  apply truthy_not_null in Et.
  destruct (dict_get data field) eqn:Ev; try reflexivity;
    apply dict_set_keys; now rewrite Ev.
Qed.

Lemma repair_payment_terms_keys (L : Lib) (data : dict) :
  map fst (repair_payment_terms L data) = map fst data.
Proof.
  unfold repair_payment_terms.
  destruct (truthy (dict_get data "payment_terms")) eqn:Et; [|reflexivity].
  apply truthy_not_null in Et.
  destruct (dict_get data "payment_terms") eqn:Ev; try reflexivity;
    apply dict_set_keys; now rewrite Ev.
Qed.

Lemma repair_loop_keys (L : Lib) (fields : list string) (data : dict) :
  map fst (fold_left (repair_string_field L) fields data) = map fst data.
Proof.
  revert data; induction fields as [|f fields IH]; intros data; simpl;
    [reflexivity|].
  now rewrite IH, repair_string_field_keys.
Qed.

(** X10.  Shape repair keeps the object's keys, in their order, and adds
    none.  It leaves every entry outside the six string fields and
    [payment_terms] as it was, and inside the six string fields it leaves a
    string, a number, a boolean and null as they were. *)
Theorem repair_keeps_the_rest (L : Lib) (data : dict) :
  map fst (repair L data) = map fst data
  /\ (forall key,
        ~ In key string_fields -> key <> "payment_terms" ->
        dict_get (repair L data) key = dict_get data key)
  /\ (forall field,
        In field string_fields ->
        (forall items, dict_get data field <> JList items) ->
        (forall members, dict_get data field <> JDict members) ->
        dict_get (repair L data) field = dict_get data field).
Proof.
  split; [|split].
  - unfold repair. now rewrite repair_payment_terms_keys, repair_loop_keys.
  - intros key. apply repair_other_get.
  - intros field Hin Hl Hd. rewrite CoerceProofs.repair_get by assumption.
    unfold repaired_value.
    destruct (dict_get data field) as [| | | | |items|members];
      try (now destruct (truthy _)).
    + now contradiction (Hl items).
    + now contradiction (Hd members).
Qed.

Lemma repair_string_field_fixed (L : Lib) (data : dict) (field : string) :
  repaired_value L (dict_get data field) = dict_get data field ->
  repair_string_field L data field = data.
Proof.
  unfold repair_string_field, repaired_value.
  destruct (truthy (dict_get data field)); [|reflexivity].
  destruct (dict_get data field); try reflexivity; discriminate.
Qed.

Lemma repair_payment_terms_fixed (L : Lib) (data : dict) :
  repaired_payment L (dict_get data "payment_terms")
  = dict_get data "payment_terms" ->
  repair_payment_terms L data = data.
Proof.
  unfold repair_payment_terms, repaired_payment.
  destruct (truthy (dict_get data "payment_terms")); [|reflexivity].
  destruct (dict_get data "payment_terms"); try reflexivity; discriminate.
Qed.

Lemma repaired_payment_idem (L : Lib) (pt : json) :
  repaired_payment L (repaired_payment L pt) = repaired_payment L pt.
Proof.
  unfold repaired_payment.
  destruct pt as [|b|z|f|s|[|item items]|[|member members]]; cbn [truthy];
    try reflexivity.
  - now destruct b.
  - destruct (negb (z =? 0)%Z) eqn:E; cbn [truthy]; now rewrite ?E.
  - destruct (negb (PrimFloat.eqb f 0)) eqn:E; cbn [truthy]; now rewrite ?E.
  - destruct (negb (s =? "")) eqn:E; cbn [truthy]; now rewrite ?E.
Qed.

Lemma fold_left_fixed {A B : Type} (step : A -> B -> A) (a : A) (l : list B) :
  (forall b, In b l -> step a b = a) -> fold_left step l a = a.
Proof.
  induction l as [|b l IH]; intros H; simpl; [reflexivity|].
  rewrite (H b) by now left. apply IH. intros b' Hb'. apply H. now right.
Qed.

(** X11.  Shape repair is idempotent: repairing a repaired object changes
    nothing. *)
Theorem repair_idempotent (L : Lib) (data : dict) :
  repair L (repair L data) = repair L data.
Proof.
  unfold repair at 1.
  rewrite (fold_left_fixed (repair_string_field L) (repair L data) string_fields).
  - apply repair_payment_terms_fixed.
    now rewrite repair_payment_get, repaired_payment_idem.
  - intros field Hin. apply repair_string_field_fixed.
    now rewrite CoerceProofs.repair_get, CoerceProofs.repaired_value_idem.
Qed.

End CoerceMoreProofs.

(** ** More on the calls of [analyze] and on the Q&A path *)

Module RagMoreProofs.
Import RagService RagSpec RagMoreSpec ContractAnalyzer.

(** X12.  [analyze] reads the store once and calls the generation pipeline
    at most once, with a limit of 500 new tokens and the prompt built from
    the file name and the truncated context; it does not call the pipeline
    when the store has no chunk for the file or when no pipeline is loaded. *)
Theorem analyze_calls (L : Lib) (W : World) (file_name : string) :
  calls (analyze L W file_name)
  = CallCollectionGet file_name
    :: match collection_get W file_name, pipe W with
       | (doc :: docs, metas), Some _ =>
           [ CallPipe (build_prompt file_name
                         (context_text (build_sections (doc :: docs) metas)))
                      500 ]
       | _, _ => []
       end.
Proof.
  unfold analyze, bind, perform, calls.
  destruct (collection_get W file_name) as [[|doc docs] metas]; [reflexivity|].
  destruct (pipe W) as [generate|]; reflexivity.
Qed.

Lemma no_pipe_calls {A : Type} (m : M A) :
  all_calls (fun c => negb (is_pipe_call c)) m ->
  filter is_pipe_call (calls m) = [].
Proof.
  unfold all_calls. induction (calls m) as [|c t IH]; simpl; [reflexivity|].
  intros H. apply andb_true_iff in H as [Hc Ht].
  apply negb_true_iff in Hc. rewrite Hc. now apply IH.
Qed.

Lemma source_of_some (d : retrieved_doc) :
  source (metadata_of d) <> None -> source_of d = ret (source_or_empty d).
Proof.
  unfold source_of, source_or_empty.
  now destruct (source (metadata_of d)).
Qed.

Lemma answer_from_run (L : Lib) (W : World) (question : string)
    (docs : list retrieved_doc) :
  relevant_docs docs <> [] ->
  (forall d, In d (relevant_docs docs) -> source (metadata_of d) <> None) ->
  answer_from L W question docs
  = (Returned
       {| answer :=
            match pipe W with
            | Some generate =>
                PyStr.strip
                  (PyStr.split_last "<|assistant|>"
                     (generate (qa_prompt_of question docs) 900%nat))
            | None => "LLM not loaded. Cannot generate answer."
            end;
          citations := set_iter L (map source_or_empty (relevant_docs docs));
          similarity_scores := map score (relevant_docs docs) |},
     match pipe W with
     | Some _ => [ CallPipe (qa_prompt_of question docs) 900 ]
     | None => []
     end).
Proof.
  intros Hsome Hsrc. unfold answer_from, qa_prompt_of.
  destruct (relevant_docs docs) as [|d0 ds] eqn:E; [contradiction|].
  rewrite (for_each_pure _ source_block (fun _ => []))
    by (intros d Hd; rewrite (source_of_some d (Hsrc d Hd)); reflexivity).
  rewrite (for_each_pure source_of source_or_empty (fun _ => []))
    by (intros d Hd; apply source_of_some, Hsrc, Hd).
  assert (Hnil : forall xs : list retrieved_doc,
             flat_map (fun _ : retrieved_doc => @nil call) xs = []).
  { induction xs as [|x xs IH]; simpl; auto. }
  rewrite Hnil.
  destruct (pipe W) as [generate|]; reflexivity.
Qed.

(** X13.  When retrieval succeeds, some passage is within the threshold and
    every such passage has a source, [answer_question] returns: as answer,
    the stripped text after the last assistant marker of what the pipeline
    generated for the Q&A prompt (or the fixed "LLM not loaded" sentence
    when no pipeline is loaded); as citations, the set of the passages'
    sources; as scores, the passages' distances in order.  It calls the
    pipeline once, with a limit of 900 new tokens, or not at all when none
    is loaded. *)
Theorem answer_question_generates (L : Lib) (W : World) (question : string)
    (docs : list retrieved_doc) :
  result (retrieve W question 3) = Returned docs ->
  relevant_docs docs <> [] ->
  (forall d, In d (relevant_docs docs) -> source (metadata_of d) <> None) ->
  result (answer_question L W question)
  = Returned
      {| answer :=
           match pipe W with
           | Some generate =>
               PyStr.strip
                 (PyStr.split_last "<|assistant|>"
                    (generate (qa_prompt_of question docs) 900%nat))
           | None => "LLM not loaded. Cannot generate answer."
           end;
         citations := set_iter L (map source_or_empty (relevant_docs docs));
         similarity_scores := map score (relevant_docs docs) |}
  /\ filter is_pipe_call (calls (answer_question L W question))
     = match pipe W with
       | Some _ => [ CallPipe (qa_prompt_of question docs) 900 ]
       | None => []
       end.
Proof.
  intros Hr Hsome Hsrc.
  pose proof (no_pipe_calls _ (RagProofs.retrieve_no_pipe W question 3)) as Hp.
  unfold answer_question, result, calls in *.
  destruct (retrieve W question 3) as [o t]. cbn [fst snd] in Hr, Hp. subst o.
  unfold bind. rewrite (answer_from_run L W question docs Hsome Hsrc).
  cbn [fst snd]. split; [reflexivity|].
  rewrite filter_app, Hp. now destruct (pipe W).
Qed.

Lemma answer_question_generates_witness :
  result (answer_question Reference.lib
            (Reference.world leave_store (Some " 25 days. ")) "How much leave?")
  = Returned {| answer := "25 days.";
                citations := [ "leave.pdf" ];
                similarity_scores := [ 0.4%float; 0.8%float ] |}.
Proof.
  destruct (answer_question_generates Reference.lib
              (Reference.world leave_store (Some " 25 days. ")) "How much leave?"
              (map (fun e => {| text := fst (fst e); metadata_of := snd (fst e);
                                score := snd e |}) leave_store))
    as [H _].
  - vm_compute. reflexivity.
  - vm_compute. discriminate.
  - intros d Hd. vm_compute in Hd.
    destruct Hd as [<-|[<-|[]]]; discriminate.
  - rewrite H. vm_compute. reflexivity.
Defined.

Lemma for_each_source_missing {B : Type} (k : retrieved_doc -> string -> B)
    (xs : list retrieved_doc) :
  (exists d, In d xs /\ source (metadata_of d) = None) ->
  for_each (fun d => bind (source_of d) (fun src => ret (k d src))) xs
  = (Raised (mk_exn KeyError "'source'"), []).
Proof.
  induction xs as [|x xs IH]; intros (d & Hin & Hnone); [destruct Hin|].
  cbn [for_each]. unfold source_of at 1.
  destruct (source (metadata_of x)) as [src|] eqn:Ex.
  - rewrite IH; [reflexivity|]. destruct Hin as [->|Hin]; [congruence|].
    now exists d.
  - reflexivity.
Qed.

Lemma answer_from_missing_source (L : Lib) (W : World) (question : string)
    (docs : list retrieved_doc) :
  (exists d, In d (relevant_docs docs) /\ source (metadata_of d) = None) ->
  answer_from L W question docs = (Raised (mk_exn KeyError "'source'"), []).
Proof.
  intros Hmissing. unfold answer_from.
  destruct (relevant_docs docs) as [|d0 ds] eqn:E.
  { destruct Hmissing as (d & [] & _). }
  rewrite (for_each_source_missing
             (fun d src => "Source: " ++ src ++ PyStr.nl ++ "Content: " ++ text d))
    by assumption.
  reflexivity.
Qed.

(** X14.  When a passage within the threshold has no [source] in its
    metadata, [answer_question] raises [KeyError] for the key: unlike
    [analyze], the Q&A path does not absorb the fault.  The error comes
    while the context is built, so the pipeline is not called. *)
Theorem answer_question_missing_source (L : Lib) (W : World) (question : string)
    (docs : list retrieved_doc) :
  result (retrieve W question 3) = Returned docs ->
  (exists d, In d (relevant_docs docs) /\ source (metadata_of d) = None) ->
  result (answer_question L W question) = Raised (mk_exn KeyError "'source'")
  /\ filter is_pipe_call (calls (answer_question L W question)) = [].
Proof.
  intros Hr Hmissing.
  pose proof (no_pipe_calls _ (RagProofs.retrieve_no_pipe W question 3)) as Hp.
  unfold answer_question, result, calls in *.
  destruct (retrieve W question 3) as [o t]. cbn [fst snd] in Hr, Hp. subst o.
  unfold bind. rewrite (answer_from_missing_source L W question docs Hmissing).
  cbn [fst snd]. now rewrite app_nil_r.
Qed.

Lemma answer_question_missing_source_witness :
  result (answer_question Reference.lib
            (Reference.world unsourced_store (Some "unused")) "How much leave?")
  = Raised (mk_exn KeyError "'source'")
  /\ filter is_pipe_call
       (calls (answer_question Reference.lib
                 (Reference.world unsourced_store (Some "unused"))
                 "How much leave?")) = [].
Proof.
  eapply answer_question_missing_source.
  - vm_compute. reflexivity.
  - eexists. split; [vm_compute; left; reflexivity | reflexivity].
Defined.

Lemma for_each_source_of_returned (xs : list retrieved_doc) (srcs : list string)
    (t : list call) :
  for_each source_of xs = (Returned srcs, t) ->
  map (fun d => source (metadata_of d)) xs = map Some srcs.
Proof.
  revert srcs t; induction xs as [|x xs IH]; intros srcs t; cbn [for_each].
  - intros H. injection H as <- _. reflexivity.
  - unfold source_of at 1. destruct (source (metadata_of x)) as [src|] eqn:Ex;
      [|discriminate].
    unfold ret at 1. unfold bind at 1.
    destruct (for_each source_of xs) as [[ys|e] t2] eqn:Er; [|discriminate].
    cbn. intros H. injection H as <- _. cbn [map].
    now rewrite Ex, (IH ys t2 eq_refl).
Qed.

(** X15.  Provided [list(set(...))] yields each element of its argument
    once, the citations of an answer hold no source twice, and a source is
    cited exactly when some passage within the threshold comes from it. *)
Theorem citations_are_the_distinct_sources (L : Lib) (W : World)
    (question : string) (docs : list retrieved_doc) (r : QueryResponse) :
  (forall xs, NoDup (set_iter L xs) /\ forall x, In x (set_iter L xs) <-> In x xs) ->
  result (retrieve W question 3) = Returned docs ->
  result (answer_question L W question) = Returned r ->
  NoDup (citations r)
  /\ (forall src,
        In src (citations r)
        <-> exists d, In d (relevant_docs docs)
                      /\ source (metadata_of d) = Some src).
Proof.
  intros Hset Hr.
  assert (Hres : result (answer_question L W question)
                 = result (answer_from L W question docs)).
  { unfold answer_question, result, bind in *.
    destruct (retrieve W question 3) as [o t]. cbn [fst] in Hr. subst o.
    now destruct (answer_from L W question docs). }
  rewrite Hres. clear Hres Hr. unfold answer_from.
  destruct (relevant_docs docs) as [|d0 ds] eqn:E.
  { cbn. intros H. injection H as <-. cbn. split; [constructor|].
    intros src. split; [intros [] | intros (d & [] & _)]. }
  unfold bind, result.
  destruct (for_each _ (d0 :: ds)) as [[blocks|e] t1]; [|discriminate].
  assert (Hcit : forall srcs t2,
             for_each source_of (d0 :: ds) = (Returned srcs, t2) ->
             NoDup (set_iter L srcs)
             /\ (forall src, In src (set_iter L srcs)
                   <-> exists d, In d (d0 :: ds)
                                 /\ source (metadata_of d) = Some src)).
  { intros srcs t2 Hs. apply for_each_source_of_returned in Hs.
    destruct (Hset srcs) as [Hnd Hin]. split; [assumption|].
    intros src. rewrite Hin. split.
    - intros Hsrc. apply (in_map Some) in Hsrc. rewrite <- Hs in Hsrc.
      apply in_map_iff in Hsrc as (d & Hd & Hin'). now exists d.
    - intros (d & Hd & Hsrc).
      assert (Hin' : In (Some src) (map Some srcs)).
      { rewrite <- Hs, <- Hsrc. now apply (in_map (fun d => source (metadata_of d))). }
      apply in_map_iff in Hin' as (y & Hy & Hin'). now injection Hy as <-. }
  destruct (pipe W) as [generate|]; cbn [perform ret fst snd];
    destruct (for_each source_of (d0 :: ds)) as [[srcs|e] t2] eqn:Es;
    cbn; intros H; try discriminate H; injection H as <-; cbn [citations];
    exact (Hcit srcs t2 eq_refl).
Qed.

Lemma citations_are_the_distinct_sources_witness :
  NoDup [ "leave.pdf" ]
  /\ (forall src,
        In src [ "leave.pdf" ]
        <-> exists d,
              In d (relevant_docs
                      (map (fun e => {| text := fst (fst e);
                                        metadata_of := snd (fst e);
                                        score := snd e |}) leave_store))
              /\ source (metadata_of d) = Some src).
Proof.
  apply (citations_are_the_distinct_sources Reference.lib
           (Reference.world leave_store None) "How much leave?"
           (map (fun e => {| text := fst (fst e); metadata_of := snd (fst e);
                             score := snd e |}) leave_store)
           {| answer := "LLM not loaded. Cannot generate answer.";
              citations := [ "leave.pdf" ];
              similarity_scores := [ 0.4%float; 0.8%float ] |}).
  - intros xs. split; [apply NoDup_nodup | intros x; apply nodup_In].
  - vm_compute. reflexivity.
  - vm_compute. reflexivity.
Defined.

Lemma index_returned {A : Type} (xs : list A) (i : nat) (x : A) (t : list call) :
  index xs i = (Returned x, t) -> nth_error xs i = Some x.
Proof.
  unfold index. destruct (nth_error xs i); [|discriminate].
  intros H. now injection H as <- _.
Qed.

Lemma bind_returned {A B : Type} (m : M A) (k : A -> M B) (b : B) (t : list call) :
  bind m k = (Returned b, t) ->
  exists a t1 t2, m = (Returned a, t1) /\ k a = (Returned b, t2).
Proof.
  unfold bind. destruct m as [[a|e] t1]; [|discriminate].
  destruct (k a) as [r t2] eqn:Ek. intros H. injection H as -> _.
  now exists a, t1, t2.
Qed.

Lemma for_each_returned {A B : Type} (f : A -> M B) (xs : list A) (ys : list B)
    (t : list call) :
  for_each f xs = (Returned ys, t) ->
  List.length ys = List.length xs
  /\ forall i y, nth_error ys i = Some y ->
       exists x t', nth_error xs i = Some x /\ f x = (Returned y, t').
Proof.
  revert ys t; induction xs as [|x xs IH]; intros ys t; cbn [for_each].
  - intros H. injection H as <- _. split; [reflexivity|].
    intros [|i] y H; discriminate H.
  - intros H. apply bind_returned in H as (y0 & t1 & t2 & Hx & H).
    apply bind_returned in H as (ys0 & t3 & t4 & Hxs & H).
    injection H as <- _. destruct (IH _ _ Hxs) as [Hlen Hnth].
    split; [cbn; now rewrite Hlen|].
    intros [|i] y Hy; cbn in Hy.
    + injection Hy as <-. now exists x, t1.
    + destruct (Hnth i y Hy) as (x' & t' & Hx' & Hf). now exists x', t'.
Qed.

Lemma retrieve_run (W : World) (query : string) (top_k : nat) :
  retrieve W query top_k
  = match nth_error (Embeddings.embed_texts W [query]) 0 with
    | None => (Raised (mk_exn IndexError "list index out of range"),
               [ CallEmbedTexts [query] ])
    | Some query_embedding =>
        (result
           (match documents (collection_query W query_embedding top_k) with
            | [] => ret []
            | first_docs :: _ =>
                for_each
                  (fun id =>
                     bind (index (metadatas (collection_query W query_embedding top_k)) 0)
                       (fun first_metas =>
                     bind (index first_metas (fst id)) (fun metadata =>
                     bind (index (distances (collection_query W query_embedding top_k)) 0)
                       (fun first_dists =>
                     bind (index first_dists (fst id)) (fun distance =>
                     ret {| text := snd id; metadata_of := metadata;
                            score := distance |})))))
                  (enumerate first_docs)
            end),
         [ CallEmbedTexts [query]; CallCollectionQuery query_embedding top_k ])
    end.
Proof.
  unfold retrieve. unfold perform at 1. unfold bind at 1. unfold index at 1.
  destruct (nth_error (Embeddings.embed_texts W [query]) 0) as [qe|];
    [|reflexivity].
  unfold ret at 1. unfold bind at 1. unfold perform at 1. unfold bind at 1.
  destruct (documents (collection_query W qe top_k)) as [|first_docs others];
    [reflexivity|].
  match goal with |- context [for_each ?f ?xs] =>
    pose proof (for_each_calls_nil f xs) as Hnil;
    destruct (for_each f xs) as [o t] end.
  unfold calls, result in *. cbn [fst snd] in *. rewrite Hnil; [reflexivity|].
  intros id. repeat (apply bind_calls_nil; [apply index_calls | intros ?]).
  reflexivity.
Qed.

(** X16.  Whenever [retrieve] returns, it has made one embedding call for
    the query and one store query for [top_k] results, and its passages are
    those of the first result row, by position: passage [i] carries the
    [i]-th document text, the [i]-th metadata and the [i]-th distance.  An
    answer without rows gives no passage. *)
Theorem retrieve_aligned (W : World) (query : string) (top_k : nat)
    (docs : list retrieved_doc) :
  result (retrieve W query top_k) = Returned docs ->
  exists query_embedding,
    nth_error (Embeddings.embed_texts W [query]) 0 = Some query_embedding
    /\ calls (retrieve W query top_k)
       = [ CallEmbedTexts [query]; CallCollectionQuery query_embedding top_k ]
    /\ match documents (collection_query W query_embedding top_k) with
       | [] => docs = []
       | first_docs :: _ =>
           map text docs = first_docs
           /\ forall i d,
                nth_error docs i = Some d ->
                exists first_metas first_dists,
                  nth_error (metadatas (collection_query W query_embedding top_k)) 0
                  = Some first_metas
                  /\ nth_error first_metas i = Some (metadata_of d)
                  /\ nth_error (distances (collection_query W query_embedding top_k)) 0
                     = Some first_dists
                  /\ nth_error first_dists i = Some (score d)
       end.
Proof.
  rewrite retrieve_run.
  destruct (nth_error (Embeddings.embed_texts W [query]) 0) as [qe|];
    [|discriminate].
  unfold result at 1. cbn [fst]. unfold calls. cbn [snd].
  intros Hres. exists qe. split; [reflexivity|]. split; [reflexivity|].
  remember (collection_query W qe top_k) as results eqn:Eres.
  destruct (documents results) as [|first_docs others].
  { cbn in Hres. now injection Hres as <-. }
  unfold result in Hres.
  match type of Hres with context [for_each ?f ?xs] =>
    pose proof (for_each_returned f xs) as Hret;
    destruct (for_each f xs) as [o t] end.
  cbn [fst] in Hres. subst o. destruct (Hret docs t eq_refl) as [Hlen Hnth].
  assert (Hpos : forall i d, nth_error docs i = Some d ->
             nth_error first_docs i = Some (text d)
             /\ exists first_metas first_dists,
                  nth_error (metadatas results) 0 = Some first_metas
                  /\ nth_error first_metas i = Some (metadata_of d)
                  /\ nth_error (distances results) 0 = Some first_dists
                  /\ nth_error first_dists i = Some (score d)).
  { intros i d Hd. destruct (Hnth i d Hd) as ([j doc] & t' & Hx & Hf).
    rewrite IngestMoreProofs.nth_error_enumerate in Hx.
    destruct (nth_error first_docs i) as [doc'|] eqn:Edoc; [|discriminate].
    cbn in Hx. injection Hx as <- <-. cbn [fst snd] in Hf.
    apply bind_returned in Hf as (ms & ta1 & ta2 & Hms & Hf).
    apply bind_returned in Hf as (m & tb1 & tb2 & Hm & Hf).
    apply bind_returned in Hf as (dists & tc1 & tc2 & Hdists & Hf).
    apply bind_returned in Hf as (dist & td1 & td2 & Hdist & Hf).
    injection Hf as <- _. cbn [text metadata_of score].
    apply index_returned in Hms, Hm, Hdists, Hdist.
    split; [reflexivity|]. now exists ms, dists. }
  split.
  - apply nth_error_ext. intros i. rewrite nth_error_map.
    destruct (nth_error docs i) as [d|] eqn:Ei; cbn.
    + symmetry. apply (Hpos i d Ei).
    + symmetry. apply nth_error_None. apply nth_error_None in Ei.
      unfold enumerate in Hlen.
      rewrite length_combine, length_seq, Nat.min_id in Hlen. lia.
  - intros i d Hd. apply (Hpos i d Hd).
Qed.

Lemma retrieve_aligned_witness :
  exists query_embedding,
    nth_error (Embeddings.embed_texts (Reference.world leave_store None)
                 ["How much leave?"]) 0 = Some query_embedding
    /\ calls (retrieve (Reference.world leave_store None) "How much leave?" 2)
       = [ CallEmbedTexts ["How much leave?"]; CallCollectionQuery query_embedding 2 ].
Proof.
  destruct (retrieve_aligned (Reference.world leave_store None) "How much leave?" 2
              (map (fun e => {| text := fst (fst e); metadata_of := snd (fst e);
                                score := snd e |}) (firstn 2 leave_store)))
    as (qe & H1 & H2 & _).
  - vm_compute. reflexivity.
  - now exists qe.
Defined.

End RagMoreProofs.

(** ** The text taken from the generated output *)

Module TextProofs.
Import TextSpec.

Lemma str_in_false_cons (sub : string) (c : ascii) (s : string) :
  PyStr.str_in sub (String c s) = false
  <-> String.prefix sub (String c s) = false /\ PyStr.str_in sub s = false.
Proof. rewrite str_in_cons. apply orb_false_iff. Qed.

Lemma split_go_absent (sep cur s : string) :
  PyStr.str_in sep s = false -> PyStr.split_go sep 0 cur s = [cur ++ s].
Proof.
  revert cur; induction s as [|c s IH]; intros cur H.
  - cbn. now rewrite app_nil_r_str.
  - apply str_in_false_cons in H as [Hp Hs]. cbn [PyStr.split_go].
    rewrite Hp, (IH _ Hs). now rewrite app_assoc_str.
Qed.

Lemma split_go_skip (sep cur s : string) (k : nat) :
  PyStr.split_go sep k cur s
  = if (k <=? String.length s)%nat then PyStr.split_go sep 0 cur (PyStr.drop k s)
    else [cur].
Proof.
  revert s; induction k as [|k IH]; intros [|c s]; try reflexivity.
  cbn [PyStr.split_go PyStr.drop String.length]. apply IH.
Qed.

Lemma length_drop_le (k : nat) (s : string) :
  (String.length (PyStr.drop k s) <= String.length s)%nat.
Proof.
  revert s; induction k as [|k IH]; intros [|c s]; simpl; try lia.
  specialize (IH s). lia.
Qed.

Lemma drop_suffix (k : nat) (s : string) : exists pre, s = pre ++ PyStr.drop k s.
Proof. exists (PyStr.take k s). symmetry. apply take_drop. Qed.

Lemma split_go_nonempty (sep cur s : string) (k : nat) :
  PyStr.split_go sep k cur s <> [].
Proof.
  revert k cur; induction s as [|c s IH]; intros k cur; [discriminate|].
  cbn [PyStr.split_go]. destruct k as [|k]; [|apply IH].
  destruct (String.prefix sep (String c s)); [discriminate | apply IH].
Qed.

Lemma app_snoc_split (cur a b : string) (c : ascii) :
  cur ++ String c "" = a ++ b -> b <> "" ->
  exists b0, b = b0 ++ String c "" /\ cur = a ++ b0.
Proof.
  revert cur; induction a as [|w a IH]; intros cur Hab Hb.
  - exists cur. split; [symmetry; exact Hab | reflexivity].
  - destruct cur as [|z cur]; cbn in Hab.
    + injection Hab as _ Hab. destruct a; [|discriminate].
      cbn in Hab. now subst b.
    + injection Hab as -> Hab. destruct (IH cur Hab Hb) as (b0 & Hb0 & Hc).
      exists b0. split; [assumption|]. cbn. now rewrite Hc.
Qed.

(** The last piece is free of the separator when no suffix of [cur]
    followed by the rest starts with it. *)
Lemma split_go_last (sep : string) (n : nat) :
  sep <> "" ->
  forall s cur,
    (String.length s <= n)%nat ->
    (forall a b, cur = a ++ b -> b <> "" -> String.prefix sep (b ++ s) = false) ->
    PyStr.str_in sep (List.last (PyStr.split_go sep 0 cur s) "") = false
    /\ (List.last (PyStr.split_go sep 0 cur s) "" = cur ++ s
        \/ exists pre, s = pre ++ List.last (PyStr.split_go sep 0 cur s) "").
Proof.
  intros Hsep. induction n as [|n IH]; intros s cur Hlen Hcur.
  - destruct s as [|c s]; [|simpl in Hlen; lia]. cbn [PyStr.split_go List.last].
    split; [|left; now rewrite app_nil_r_str].
    assert (Hall : forall a b, cur = a ++ b -> PyStr.str_in sep b = false).
    { intros a b; revert a. induction b as [|c b IHb]; intros a Hab.
      - rewrite str_in_nil. destruct sep; [contradiction | reflexivity].
      - apply str_in_false_cons. split.
        + rewrite <- (app_nil_r_str (String c b)). now apply (Hcur a).
        + apply (IHb (a ++ String c "")). rewrite Hab.
          now rewrite app_assoc_str. }
    now apply (Hall "" cur).
  - destruct s as [|c s].
    { apply (IH "" cur); [simpl; lia | assumption]. }
    cbn [PyStr.split_go]. destruct (String.prefix sep (String c s)) eqn:Ep.
    + rewrite split_go_skip.
      destruct (String.length sep - 1 <=? String.length s)%nat.
      * destruct (IH (PyStr.drop (String.length sep - 1) s) "") as [H1 H2].
        -- pose proof (length_drop_le (String.length sep - 1) s).
           simpl in Hlen. lia.
        -- intros a b Hab Hb. destruct a; destruct b; try discriminate.
           contradiction.
        -- cbn [List.last].
           destruct (PyStr.split_go sep 0 ""
                       (PyStr.drop (String.length sep - 1) s)) as [|p ps] eqn:Eg.
           { now apply split_go_nonempty in Eg. }
           split; [exact H1|]. right.
           destruct (drop_suffix (String.length sep - 1) s) as [pre Hpre].
           destruct H2 as [H2|[pre' H2]].
           ++ exists (String c pre). cbn [append]. f_equal.
              rewrite H2. exact Hpre.
           ++ exists (String c (pre ++ pre')). cbn [append]. f_equal.
              rewrite app_assoc_str, <- H2. exact Hpre.
      * cbn [List.last]. split.
        -- rewrite str_in_nil. destruct sep; [contradiction | reflexivity].
        -- right. exists (String c s). now rewrite app_nil_r_str.
    + destruct (IH s (cur ++ String c "")) as [H1 H2].
      * simpl in Hlen. lia.
      * intros a b Hab Hb.
        destruct (app_snoc_split _ _ _ _ Hab Hb) as (b0 & -> & ->).
        rewrite app_assoc_str. cbn [append].
        destruct b0 as [|x b0]; [exact Ep|].
        apply (Hcur a (String x b0)); [reflexivity | discriminate].
      * split; [exact H1|]. rewrite app_assoc_str in H2. cbn [append] in H2.
        destruct H2 as [H2|[pre H2]]; [now left|].
        right. exists (String c pre). cbn. now rewrite <- H2.
Qed.

Lemma split_last_spec (sep s : string) :
  sep <> "" ->
  PyStr.str_in sep (PyStr.split_last sep s) = false
  /\ (exists pre, s = pre ++ PyStr.split_last sep s)
  /\ (PyStr.str_in sep s = false -> PyStr.split_last sep s = s).
Proof.
  intros Hsep. unfold PyStr.split_last, PyStr.split.
  destruct (split_go_last sep (String.length s) Hsep s "" (Nat.le_refl _))
    as [H1 H2].
  { intros a b Hab Hb. destruct a; destruct b; try discriminate. contradiction. }
  split; [exact H1|]. split.
  - destruct H2 as [H2|H2]; [exists ""; now rewrite H2 | exact H2].
  - intros Habs. now rewrite (split_go_absent sep "" s Habs).
Qed.

Lemma lstrip_suffix (s : string) : exists pre, s = pre ++ PyStr.lstrip s.
Proof.
  induction s as [|c s [pre IH]]; [now exists ""|]. cbn [PyStr.lstrip].
  destruct (PyStr.isspace c); [|now exists ""].
  exists (String c pre). cbn. now rewrite <- IH.
Qed.

Lemma rstrip_prefix (s : string) : exists post, s = PyStr.rstrip s ++ post.
Proof.
  induction s as [|c s [post IH]]; [now exists ""|]. cbn [PyStr.rstrip].
  destruct (PyStr.rstrip s) as [|k kept] eqn:Er.
  - destruct (PyStr.isspace c).
    + now exists (String c s).
    + exists post. cbn. now rewrite IH.
  - exists post. cbn. now rewrite IH.
Qed.

Lemma strip_substring (s : string) :
  exists pre post, s = pre ++ PyStr.strip s ++ post.
Proof.
  unfold PyStr.strip. destruct (lstrip_suffix s) as [pre Hpre].
  destruct (rstrip_prefix (PyStr.lstrip s)) as [post Hpost].
  exists pre, post. now rewrite <- Hpost.
Qed.

Lemma str_in_substring (sub pre mid post : string) :
  PyStr.str_in sub (pre ++ mid ++ post) = false -> PyStr.str_in sub mid = false.
Proof.
  intros H. destruct (PyStr.str_in sub mid) eqn:E; [|reflexivity].
  apply str_in_spec in E as (a & b & ->).
  assert (Ht : PyStr.str_in sub (pre ++ (a ++ sub ++ b) ++ post) = true).
  { apply str_in_spec. exists (pre ++ a), (b ++ post).
    now rewrite !app_assoc_str. }
  congruence.
Qed.

Lemma lstrip_no_lead (s : string) : starts_with_space (PyStr.lstrip s) = false.
Proof.
  induction s as [|c s IH]; [reflexivity|]. cbn [PyStr.lstrip].
  destruct (PyStr.isspace c) eqn:E; [exact IH | exact E].
Qed.

Lemma rstrip_keeps_lead (s : string) :
  starts_with_space s = false -> starts_with_space (PyStr.rstrip s) = false.
Proof.
  destruct s as [|c s]; [reflexivity|]. cbn [PyStr.rstrip starts_with_space].
  intros E. destruct (PyStr.rstrip s); [|exact E]. now rewrite E.
Qed.

Lemma rstrip_no_trail (s : string) : ends_with_space (PyStr.rstrip s) = false.
Proof.
  induction s as [|c s IH]; [reflexivity|]. cbn [PyStr.rstrip].
  destruct (PyStr.rstrip s) as [|k kept].
  - destruct (PyStr.isspace c) eqn:E; [reflexivity | exact E].
  - exact IH.
Qed.

Lemma lstrip_fixed (s : string) :
  starts_with_space s = false -> PyStr.lstrip s = s.
Proof. destruct s as [|c s]; [reflexivity|]. cbn. now intros ->. Qed.

Lemma rstrip_fixed (s : string) :
  ends_with_space s = false -> PyStr.rstrip s = s.
Proof.
  induction s as [|c s IH]; [reflexivity|]. cbn [PyStr.rstrip ends_with_space].
  destruct s as [|d s].
  - cbn. now intros ->.
  - intros H. now rewrite (IH H).
Qed.

Lemma strip_stripped (s : string) :
  starts_with_space (PyStr.strip s) = false
  /\ ends_with_space (PyStr.strip s) = false.
Proof.
  unfold PyStr.strip. split.
  - apply rstrip_keeps_lead, lstrip_no_lead.
  - apply rstrip_no_trail.
Qed.

Lemma strip_idempotent (s : string) : PyStr.strip (PyStr.strip s) = PyStr.strip s.
Proof.
  destruct (strip_stripped s) as [H1 H2]. unfold PyStr.strip at 1.
  now rewrite (lstrip_fixed _ H1), (rstrip_fixed _ H2).
Qed.

Lemma after_marker_substring (generated_text : string) :
  exists before after,
    generated_text = before ++ after_marker generated_text ++ after.
Proof.
  unfold after_marker.
  destruct (split_last_spec "<|assistant|>" generated_text ltac:(discriminate))
    as (_ & [pre Hpre] & _).
  destruct (strip_substring (PyStr.split_last "<|assistant|>" generated_text))
    as (a & b & Hab).
  exists (pre ++ a), b. rewrite app_assoc_str, <- Hab. exact Hpre.
Qed.

(** X17.  The text taken after the assistant marker (the Q&A answer, and the
    response that [analyze] goes on to clean) is a piece of the generated
    text that holds no assistant marker and neither starts nor ends with
    whitespace; when the generated text holds no marker it is the whole
    generated text, stripped. *)
Theorem after_marker_spec (generated_text : string) :
  PyStr.str_in "<|assistant|>" (after_marker generated_text) = false
  /\ (exists before after,
        generated_text = before ++ after_marker generated_text ++ after)
  /\ starts_with_space (after_marker generated_text) = false
  /\ ends_with_space (after_marker generated_text) = false
  /\ (PyStr.str_in "<|assistant|>" generated_text = false ->
        after_marker generated_text = PyStr.strip generated_text).
Proof.
  split; [|split; [|split; [|split]]];
    [| apply after_marker_substring | | |]; unfold after_marker;
    destruct (split_last_spec "<|assistant|>" generated_text ltac:(discriminate))
      as (Hfree & _ & Habs).
  - destruct (strip_substring (PyStr.split_last "<|assistant|>" generated_text))
      as (a & b & Hab).
    apply (str_in_substring _ a _ b). now rewrite <- Hab.
  - apply strip_stripped.
  - apply strip_stripped.
  - intros H. now rewrite (Habs H).
Qed.

Lemma replace_go_absent (old new s : string) :
  PyStr.str_in old s = false -> PyStr.replace_go old new 0 s = s.
Proof.
  induction s as [|c s IH]; intros H; [reflexivity|].
  apply str_in_false_cons in H as [Hp Hs]. cbn [PyStr.replace_go].
  now rewrite Hp, (IH Hs).
Qed.

Lemma str_in_longer (sub ext s : string) :
  PyStr.str_in sub s = false -> PyStr.str_in (sub ++ ext) s = false.
Proof.
  intros H. destruct (PyStr.str_in (sub ++ ext) s) eqn:E; [|reflexivity].
  apply str_in_spec in E as (a & b & ->).
  assert (Ht : PyStr.str_in sub (a ++ (sub ++ ext) ++ b) = true).
  { apply str_in_spec. exists a, (ext ++ b). now rewrite !app_assoc_str. }
  congruence.
Qed.

(** Removing the fences: what [replace] does on a text that starts with a
    fence, and on one that does not. *)
Lemma unfence_fence (s : string) :
  PyStr.replace "```" "" ("```" ++ s) = PyStr.replace "```" "" s.
Proof. destruct s; reflexivity. Qed.

Lemma unfence_other (c : ascii) (s : string) :
  String.prefix "```" (String c s) = false ->
  PyStr.replace "```" "" (String c s) = String c (PyStr.replace "```" "" s).
Proof.
  intros H. unfold PyStr.replace. cbn [PyStr.replace_go]. now rewrite H.
Qed.

Lemma prefix_cons (c d : ascii) (a s : string) :
  String.prefix (String c a) (String d s)
  = (if ascii_dec c d then String.prefix a s else false).
Proof. reflexivity. Qed.

Lemma unfence_two_ticks (s : string) :
  String.prefix "``" s = false ->
  String.prefix "``" (PyStr.replace "```" "" s) = false.
Proof.
  intros H. destruct s as [|c1 s1]; [reflexivity|].
  destruct (ascii_dec "`" c1) as [<-|Hc1].
  - destruct s1 as [|c2 s2]; [reflexivity|].
    assert (Hc2 : "`"%char <> c2).
    { intros <-. destruct s2; discriminate H. }
    rewrite unfence_other.
    2:{ rewrite !prefix_cons. destruct (ascii_dec "`" "`"); [|reflexivity].
        now destruct (ascii_dec "`" c2). }
    rewrite unfence_other.
    2:{ rewrite prefix_cons. now destruct (ascii_dec "`" c2). }
    rewrite !prefix_cons. destruct (ascii_dec "`" "`"); [|reflexivity].
    now destruct (ascii_dec "`" c2).
  - rewrite unfence_other.
    2:{ rewrite prefix_cons. now destruct (ascii_dec "`" c1). }
    rewrite prefix_cons. now destruct (ascii_dec "`" c1).
Qed.

Lemma unfence_free_upto (n : nat) (s : string) :
  (String.length s <= n)%nat ->
  PyStr.str_in "```" (PyStr.replace "```" "" s) = false.
Proof.
  revert s; induction n as [|n IH]; intros s Hlen.
  - destruct s; [reflexivity | simpl in Hlen; lia].
  - destruct s as [|c s]; [reflexivity|].
    destruct (String.prefix "```" (String c s)) eqn:Ep.
    + apply prefix_spec in Ep as [post Hpost]. rewrite Hpost, unfence_fence.
      apply IH. apply (f_equal String.length) in Hpost.
      rewrite length_app_str in Hpost. simpl in Hpost, Hlen. lia.
    + rewrite (unfence_other _ _ Ep). apply str_in_false_cons. split.
      * rewrite prefix_cons. destruct (ascii_dec "`" c) as [<-|]; [|reflexivity].
        apply unfence_two_ticks. rewrite prefix_cons in Ep.
        now destruct (ascii_dec "`" "`").
      * apply IH. simpl in Hlen. lia.
Qed.

(** X18.  The response that [analyze] hands to the JSON parser holds no
    code-fence marker (three backticks) and neither starts nor ends with
    whitespace; when the generated text holds no fence at all, the response
    is just the stripped text after the assistant marker. *)
Theorem clean_response_spec (generated_text : string) :
  PyStr.str_in "```" (ContractAnalyzer.clean_response generated_text) = false
  /\ starts_with_space (ContractAnalyzer.clean_response generated_text) = false
  /\ ends_with_space (ContractAnalyzer.clean_response generated_text) = false
  /\ (PyStr.str_in "```" generated_text = false ->
        ContractAnalyzer.clean_response generated_text
        = after_marker generated_text).
Proof.
  unfold ContractAnalyzer.clean_response. fold (after_marker generated_text).
  split; [|split; [|split]].
  - match goal with |- context [PyStr.strip ?x] =>
      destruct (strip_substring x) as (a & b & Hab) end.
    apply (str_in_substring _ a _ b). rewrite <- Hab.
    apply (unfence_free_upto _ _ (Nat.le_refl _)).
  - apply strip_stripped.
  - apply strip_stripped.
  - intros Hnone.
    assert (Hin : PyStr.str_in "```" (after_marker generated_text) = false).
    { destruct (after_marker_substring generated_text) as (a & b & Hab).
      apply (str_in_substring _ a _ b). now rewrite <- Hab. }
    unfold PyStr.replace.
    rewrite (replace_go_absent "```json" "" _ (str_in_longer "```" "json" _ Hin)).
    rewrite (replace_go_absent "```" "" _ Hin).
    unfold after_marker. apply strip_idempotent.
Qed.

End TextProofs.

(** ** The lazily loaded embedding model *)

Module LazyModelProofs.
Import LazyModel LazyModelSpec.

Lemma embed_batches_loaded (W : World) (batches : list (list string)) :
  embed_batches W batches (Some (encode W))
  = (map (Embeddings.embed_texts W) batches, Some (encode W), 0%nat).
Proof.
  induction batches as [|texts rest IH]; [reflexivity|].
  destruct texts as [|t ts];
    cbn [embed_batches embed_texts get_embedding_model]; now rewrite IH.
Qed.

(** X19.  Starting with no model loaded, any sequence of [embed_texts] calls
    loads the model at most once: once if some call has a non-empty input
    (and the model then stays loaded), never if every input is empty.  Each
    call returns what the stateless [embed_texts] of the pipeline returns. *)
Theorem model_loaded_at_most_once (W : World) (batches : list (list string)) :
  embed_batches W batches None
  = (map (Embeddings.embed_texts W) batches,
     (if existsb nonempty_batch batches then Some (encode W) else None),
     (if existsb nonempty_batch batches then 1 else 0)%nat).
Proof.
  induction batches as [|texts rest IH]; [reflexivity|].
  cbn [embed_batches existsb]. destruct texts as [|t ts].
  - cbn [embed_texts nonempty_batch orb]. now rewrite IH.
  - cbn [embed_texts get_embedding_model nonempty_batch orb].
    now rewrite embed_batches_loaded.
Qed.

End LazyModelProofs.

(** ** Chunks that reach no bucket *)

Module ContextMoreProofs.
Import ContractAnalyzer ContextSpec ContextMoreSpec.

Lemma combine_app_same {A B : Type} (l1 : list A) (m1 : list B) l2 m2 :
  List.length l1 = List.length m1 ->
  combine (l1 ++ l2) (m1 ++ m2) = (combine l1 m1 ++ combine l2 m2)%list.
Proof.
  revert m1. induction l1 as [|a l1 IH]; intros [|b m1] H; try discriminate H.
  - reflexivity.
  - cbn. f_equal. apply IH. now injection H.
Qed.

Lemma distribute_ignored (rs : relevant_sections) (doc : string) (meta : metadata) :
  in_no_bucket meta = true -> distribute rs (doc, meta) = rs.
Proof.
  unfold in_no_bucket. intros H. apply negb_true_iff in H.
  repeat (apply orb_false_iff in H as [H ?]).
  unfold distribute, append_if.
  repeat match goal with E : _ = false |- _ => rewrite E; clear E end.
  now destruct rs.
Qed.

(** X20.  A chunk that goes to no bucket (no clause tag that the analyzer
    looks for, and not among the first three chunks) leaves no trace in the
    sections, hence in the prompt: the sections are those of the store
    without it.  A chunk whose metadata lacks both [clause_types] and
    [chunk_index] is such a chunk, and so is one tagged ["general"] at
    position 3 or later. *)
Theorem unbucketed_chunk_ignored :
  (forall docs1 metas1 doc meta docs2 metas2,
     List.length docs1 = List.length metas1 ->
     in_no_bucket meta = true ->
     build_sections (docs1 ++ doc :: docs2) (metas1 ++ meta :: metas2)
     = build_sections (docs1 ++ docs2) (metas1 ++ metas2))
  /\ (forall meta,
        clause_types meta = None -> chunk_index meta = None ->
        in_no_bucket meta = true)
  /\ (forall meta i,
        clause_types meta = Some "general" -> chunk_index meta = Some i ->
        (3 <= i)%Z -> in_no_bucket meta = true).
Proof.
  split; [|split].
  - intros docs1 metas1 doc meta docs2 metas2 Hlen Hno. unfold build_sections.
    rewrite !combine_app_same by assumption. cbn [combine].
    rewrite !fold_left_app. cbn [fold_left].
    now rewrite distribute_ignored.
  - intros meta Ht Hi. unfold in_no_bucket, in_parties, in_effective_date,
      in_termination, in_governing_law, in_confidentiality, in_payment_terms,
      in_liability, in_general, tags_of, index_of.
    rewrite Ht, Hi. reflexivity.
  - intros meta i Ht Hi Hle. unfold in_no_bucket, in_parties, in_effective_date,
      in_termination, in_governing_law, in_confidentiality, in_payment_terms,
      in_liability, in_general, tags_of, index_of.
    rewrite Ht, Hi. apply Z.ltb_ge in Hle. rewrite Hle. reflexivity.
Qed.

End ContextMoreProofs.
